(** * requirementz: requirement lines, version constraints, safe rewriting

    A shallow embedding of [requirementz.py]: the [RequirementPlus] methods
    (equality, hashing, ordering, serialisation, satisfaction), the
    [Requirementz] collection (adding lines, loading, sorted writing) and the
    [SafeWriter] context manager with its backup file.

    Python strings are [string]s (byte strings; comparison is by code, which
    for UTF-8 text is the code-point order Python uses).  Dictionaries are
    stdpp [gmap]s, sets are [gset]s, and lists updated by index use stdpp's
    list insert.  Exceptions are values of [exn]; a computation that can
    raise returns a [Result], and one that also touches the file system
    threads a [World]. *)

From Stdlib Require Import Ascii NArith ZArith Bool Lia.
From stdpp Require Import gmap strings list sorting.

(* ===================================================================== *)
(** ** Strings as Python uses them *)
(* ===================================================================== *)

(** [str.lower()] on ASCII letters; every other byte is left alone. *)
Definition ascii_lower (c : ascii) : ascii :=
  let n := N_of_ascii c in
  if ((65 <=? n) && (n <=? 90))%N then ascii_of_N (n + 32) else c.

Fixpoint lower (s : string) : string :=
  match s with
  | EmptyString => EmptyString
  | String c s' => String (ascii_lower c) (lower s')
  end.

(** [sep.join(parts)]. *)
Fixpoint join (sep : string) (parts : list string) : string :=
  match parts with
  | [] => ""
  | [p] => p
  | p :: rest => p +:+ sep +:+ join sep rest
  end.

(** [s1 < s2] on [str]. *)
Definition str_lt (s1 s2 : string) : bool := String.ltb s1 s2.

(** Lexicographic [<] on pairs of strings, as Python compares tuples. *)
Definition pair_lt (a b : string * string) : bool :=
  if String.eqb a.1 b.1 then str_lt a.2 b.2 else str_lt a.1 b.1.

(** Lexicographic [<] on lists of pairs, as Python compares lists: the first
    position where the lists differ decides, and a proper prefix is smaller. *)
Fixpoint list_lt (l1 l2 : list (string * string)) : bool :=
  match l1, l2 with
  | [], [] => false
  | [], _ :: _ => true
  | _ :: _, [] => false
  | a :: l1', b :: l2' =>
      if decide (a = b) then list_lt l1' l2' else pair_lt a b
  end.

(* ===================================================================== *)
(** ** Exceptions and results *)
(* ===================================================================== *)

Inductive exn : Type :=
| ValueError (msg : string)
| TypeError (msg : string)
| AttributeError (attr : string)
| IndexError
| EnvironmentError (errno : nat) (filename : string)
| FatalError (msg : string).

Inductive Result (A : Type) : Type :=
| Ok (a : A)
| Raise (e : exn).
Arguments Ok {A} a.
Arguments Raise {A} e.

Definition is_Ok {A} (r : Result A) : bool :=
  match r with Ok _ => true | Raise _ => false end.

(** Known [errno]s of the source. *)
Definition FILE_NOT_FOUND : nat := 2.
Definition INVALID_PERMISSIONS : nat := 13.

(* ===================================================================== *)
(** ** Versions (pkg_resources.parse_version) *)
(* ===================================================================== *)

(** Split on a separator byte: ["1.0.1"] gives [["1"; "0"; "1"]]. *)
Fixpoint split_on (sep : ascii) (s : string) : list string :=
  match s with
  | EmptyString => [""]
  | String c s' =>
      if Ascii.eqb c sep then "" :: split_on sep s'
      else match split_on sep s' with
           | [] => [String c ""]
           | seg :: segs => String c seg :: segs
           end
  end.

Definition is_digit (c : ascii) : bool :=
  let n := N_of_ascii c in ((48 <=? n) && (n <=? 57))%N.

(** The leading decimal digits of a segment and what follows them. *)
Fixpoint digits_prefix (s : string) : string * string :=
  match s with
  | EmptyString => ("", "")
  | String c s' =>
      if is_digit c
      then let '(d, rest) := digits_prefix s' in (String c d, rest)
      else ("", s)
  end.

Fixpoint num_of_digits_acc (acc : N) (s : string) : N :=
  match s with
  | EmptyString => acc
  | String c s' => num_of_digits_acc (10 * acc + (N_of_ascii c - 48)) s'
  end.
Definition num_of_digits (s : string) : N := num_of_digits_acc 0 s.

(** Numeric segments are kept as numbers; at the first segment that is not
    wholly numeric its leading digits (if any) are kept and the rest of the
    version, the pre-release marker, is dropped. *)
Fixpoint release_of_segments (segs : list string) : list N :=
  match segs with
  | [] => []
  | seg :: rest =>
      match digits_prefix seg with
      | (EmptyString, _) => []
      | (d, EmptyString) => num_of_digits d :: release_of_segments rest
      | (d, _) => [num_of_digits d]
      end
  end.

(** Modelled from the spec: [pkg_resources.parse_version] is imported by the
    source, not defined in it.  Section 4.2 of the specification: a version
    string is normalised by splitting on [.] and non-numeric suffixes into
    an ordered tuple; numeric segments compare numerically and are padded
    with zero for differing lengths; non-numeric trailing segments are
    ignored for ordering purposes. *)
Definition parse_version (v : string) : list N :=
  release_of_segments (split_on "." v).

Definition pad_release (n : nat) (r : list N) : list N :=
  r ++ replicate (n - length r) 0%N.

Fixpoint lex_compare (a b : list N) : comparison :=
  match a, b with
  | x :: a', y :: b' =>
      match N.compare x y with
      | Eq => lex_compare a' b'
      | c => c
      end
  | [], [] => Eq
  | [], _ :: _ => Lt
  | _ :: _, [] => Gt
  end.

(** Modelled from the spec: the ordering of parsed versions (section 4.2):
    both tuples are padded with zeros to the longer length and compared
    segment by segment. *)
Definition version_compare (a b : list N) : comparison :=
  let n := max (length a) (length b) in
  lex_compare (pad_release n a) (pad_release n b).

(* ===================================================================== *)
(** ** Requirements *)
(* ===================================================================== *)

(** The attributes of [requirements.requirement.Requirement] that the source
    reads.  The class itself belongs to the requirements-parser package; the
    fields follow section 3 of the specification: [path], [uri] and
    [revision] are meaningful only for the local-path and version-control
    kinds, which [local_file] and [vcs] mark. *)
Record Requirement : Type := {
  name : string;
  extras : list string;
  specs : list (string * string);
  local_file : bool;
  vcs : option string;
  path : string;
  uri : string;
  revision : string
}.

(** [RequirementPlus] adds the cache [_installed_ver] to the inherited
    attributes.  The cached value is itself a freshly parsed requirement, of
    which only the inherited attributes are ever read. *)
Record RequirementPlus : Type := {
  req :> Requirement;
  _installed_ver : option Requirement
}.

(** [RequirementPlus.__init__]: the parent's attributes, and an empty cache. *)
Definition RequirementPlus_init (r : Requirement) : RequirementPlus :=
  {| req := r; _installed_ver := None |}.


(** Truthiness of an optional string: [None] and [''] are false. *)
Definition truthy (o : option string) : bool :=
  match o with
  | Some s => negb (String.eqb s "")
  | None => false
  end.


(* ===================================================================== *)
(** ** Requirement lines (requirements.requirement.Requirement.parse) *)
(* ===================================================================== *)

(** [s.lstrip()] and [s.rstrip()]. *)
Fixpoint lstrip (s : string) : string :=
  match s with
  | String c s' => if Ascii.is_space c then lstrip s' else s
  | EmptyString => ""
  end.

Fixpoint rstrip (s : string) : string :=
  match s with
  | EmptyString => ""
  | String c s' =>
      match rstrip s' with
      | EmptyString => if Ascii.is_space c then "" else String c ""
      | r => String c r
      end
  end.

(** [s.strip()]. *)
Definition strip (s : string) : string := lstrip (rstrip s).

(** [s[n:]]. *)
Fixpoint skip (n : nat) (s : string) : string :=
  match n, s with
  | S n', String _ s' => skip n' s'
  | _, _ => s
  end.

(** The text before and after the first occurrence of [sub]. *)
Fixpoint cut_at (sub s : string) : option (string * string) :=
  if String.prefix sub s then Some ("", skip (String.length sub) s)
  else match s with
       | EmptyString => None
       | String c s' =>
           match cut_at sub s' with
           | Some (a, b) => Some (String c a, b)
           | None => None
           end
       end.

(** The text before and after the last occurrence of the byte [c]. *)
Fixpoint rcut (c : ascii) (s : string) : option (string * string) :=
  match s with
  | EmptyString => None
  | String x s' =>
      match rcut c s' with
      | Some (a, b) => Some (String x a, b)
      | None => if Ascii.eqb x c then Some ("", s') else None
      end
  end.

(** The longest prefix of bytes satisfying [p], and the rest. *)
Fixpoint span (p : ascii -> bool) (s : string) : string * string :=
  match s with
  | EmptyString => ("", "")
  | String c s' =>
      if p c then let '(a, b) := span p s' in (String c a, b)
      else ("", s)
  end.

Fixpoint string_forallb (p : ascii -> bool) (s : string) : bool :=
  match s with
  | EmptyString => true
  | String c s' => p c && string_forallb p s'
  end.

Definition nonempty (s : string) : bool := negb (String.eqb s "").

Definition is_alnum (c : ascii) : bool :=
  let n := N_of_ascii c in
  (((48 <=? n) && (n <=? 57)) || ((65 <=? n) && (n <=? 90))
   || ((97 <=? n) && (n <=? 122)))%N.

(** Bytes of a package or extra name: letters, digits, [.], [_] and [-]. *)
Definition is_name_char (c : ascii) : bool :=
  is_alnum c || Ascii.eqb c "." || Ascii.eqb c "_" || Ascii.eqb c "-".

(** Bytes of a version: those of a name, and [*], [+] and [!]. *)
Definition is_version_char (c : ascii) : bool :=
  is_name_char c || Ascii.eqb c "*" || Ascii.eqb c "+" || Ascii.eqb c "!".

(** A name: non-empty, of name bytes, starting with a letter or a digit. *)
Definition is_name (s : string) : bool :=
  match s with
  | EmptyString => false
  | String c _ => is_alnum c && string_forallb is_name_char s
  end.

Definition is_version (s : string) : bool :=
  nonempty s && string_forallb is_version_char s.

(** The operators of a spec, two-byte operators first. *)
Definition OPERATORS : list string := ["=="; ">="; "<="; ">"; "<"].

(** An [operator version] pair; an unknown operator or an empty version is
    an error. *)
Definition parse_spec (piece : string) : option (string * string) :=
  let p := strip piece in
  match List.find (fun op => String.prefix op p) OPERATORS with
  | Some op =>
      let ver := strip (skip (String.length op) p) in
      if is_version ver then Some (op, ver) else None
  | None => None
  end.

Fixpoint parse_specs_list (pieces : list string) : option (list (string * string)) :=
  match pieces with
  | [] => Some []
  | p :: rest =>
      match parse_spec p, parse_specs_list rest with
      | Some s, Some ss => Some (s :: ss)
      | _, _ => None
      end
  end.

(** Comma-separated specs; no text at all is no constraint. *)
Definition parse_specs (s : string) : option (list (string * string)) :=
  if String.eqb (strip s) "" then Some []
  else parse_specs_list (split_on "," s).

(** The comma-separated names between the brackets. *)
Definition parse_extras (inside : string) : option (list string) :=
  if String.eqb (strip inside) "" then Some []
  else
    let es := map strip (split_on "," inside) in
    if forallb is_name es then Some es else None.

Definition mk_registry (n : string) (es : list string)
    (ss : list (string * string)) : Requirement :=
  {| name := n; extras := es; specs := ss; local_file := false;
     vcs := None; path := ""; uri := ""; revision := "" |}.

Definition mk_local (p : string) : Requirement :=
  {| name := ""; extras := []; specs := []; local_file := true;
     vcs := None; path := p; uri := ""; revision := "" |}.

Definition mk_vcs (scheme u rev n : string) : Requirement :=
  {| name := n; extras := []; specs := []; local_file := false;
     vcs := Some scheme; path := ""; uri := u; revision := rev |}.

(** Shape (2): [<uri>@<revision>#egg=<name>], the URI being
    [<scheme>://...]. *)
Definition parse_vcs (ref : string) : option Requirement :=
  match cut_at "#egg=" ref with
  | Some (url, n) =>
      match rcut "@" url with
      | Some (u, rev) =>
          match cut_at "://" u with
          | Some (scheme, _) =>
              if nonempty scheme && nonempty rev && nonempty n
              then Some (mk_vcs scheme u rev n) else None
          | None => None
          end
      | None => None
      end
  | None => None
  end.

(** Shape (3): [name[extra1,extra2] op1 ver1, op2 ver2, ...]. *)
Definition parse_standard (s : string) : option Requirement :=
  let '(n, rest) := span is_name_char s in
  if is_name n then
    match rest with
    | String "[" rest' =>
        match cut_at "]" rest' with
        | Some (inside, after) =>
            match parse_extras inside, parse_specs after with
            | Some es, Some ss => Some (mk_registry n es ss)
            | _, _ => None
            end
        | None => None
        end
    | _ =>
        match parse_specs rest with
        | Some ss => Some (mk_registry n [] ss)
        | None => None
        end
    end
  else None.

(** Modelled from the spec: the line parser is [parse] of the parent class,
    from the requirements-parser package; it is not in the source.
    Section 4.1 of the specification names three shapes, tried in this
    priority: (1) an editable local reference [-e <path>], of kind
    LocalPath; (2) a version-control reference with a URI, an [@revision]
    and an [#egg=name] fragment, the name taken from the fragment; (3) a
    standard entry [name[extra1,extra2] op1 ver1, op2 ver2].  So whatever
    follows [-e] is a path, also when it looks like a version-control
    reference.  Blanks around the tokens do not count.  Names
    are of letters, digits, [.], [_] and [-], and versions may also hold
    [*], [+] and [!].  A line of no shape, an empty name, an unknown
    operator or an empty version is a [ValueError] carrying the line. *)
Definition parse_line (line : string) : Result Requirement :=
  let s := strip line in
  if String.prefix "-e " s then
    let ref := lstrip (skip 3 s) in
    if nonempty ref then Ok (mk_local ref) else Raise (ValueError line)
  else
    match parse_vcs s with
    | Some r => Ok r
    | None =>
        match parse_standard s with
        | Some r => Ok r
        | None => Raise (ValueError line)
        end
    end.

(* --------------------------------------------------------------------- *)
(** *** Tokens and canonical text, for reading lines back *)
(* --------------------------------------------------------------------- *)

(** No blank at the start. *)
Definition no_lead_space (s : string) : bool :=
  match s with
  | String c _ => negb (Ascii.is_space c)
  | EmptyString => true
  end.

(** A string with no blank at either end. *)
Definition trimmed (s : string) : Prop :=
  no_lead_space s = true /\ rstrip s = s.

(** A token: not empty, no blank at either end. *)
Definition token (s : string) : Prop := s <> "" /\ trimmed s.

(** The bytes that separate tokens: none of them is in a name or in a
    version. *)
Definition is_separator (c : ascii) : bool :=
  Ascii.is_space c || Ascii.eqb c "," || Ascii.eqb c "[" || Ascii.eqb c "]"
  || Ascii.eqb c "#".

(** A string free of a given byte. *)
Definition free_of (x : ascii) (s : string) : bool :=
  string_forallb (fun c => negb (Ascii.eqb c x)) s.

(** [op ver], as [spec_string] writes a spec. *)
Definition spec_text (s : string * string) : string := s.1 +:+ " " +:+ s.2.

(** A spec with a known operator and a version. *)
Definition valid_spec (s : string * string) : Prop :=
  In s.1 OPERATORS /\ is_version s.2 = true.

(** What a standard entry parses to: a name, extras that are names, and
    specs with known operators and non-empty versions. *)
Definition wf_registry (n : string) (es : list string)
    (ss : list (string * string)) : Prop :=
  is_name n = true /\ forallb is_name es = true /\ Forall valid_spec ss.

(** What [to_str] writes for the extras. *)
Definition extras_text (es : list string) : string :=
  match es with
  | [] => ""
  | _ => "[" +:+ join ", " es +:+ "]"
  end.

(** What [to_str] puts after the name and the extras, less the blank that
    ends the line when there are no specs. *)
Definition specs_tail (ss : list (string * string)) : string :=
  match ss with
  | [] => ""
  | _ => " " +:+ join "," (map spec_text ss)
  end.

(** The line [to_str] writes for a standard entry, stripped. *)
Definition registry_text (n : string) (es : list string)
    (ss : list (string * string)) : string :=
  n +:+ extras_text es +:+ specs_tail ss.

(* ===================================================================== *)
(** ** Values and helpers of the source *)
(* ===================================================================== *)

(** An installed distribution, as pip reports it. *)
Record Package : Type := {
  project_name : string;
  base_version : string;
  location : string
}.

(** What [satisfied] may be given as [against]. *)
Inductive Against : Type :=
| AgainstStr (v : string)
| AgainstReq (r : Requirement)
| AgainstOther.

(** The newline. *)
Definition nl : string := String (ascii_of_nat 10) "".

(** [s.ljust(n)], which is what the format [{name:<{ljust}}] does. *)
Definition ljust (n : nat) (s : string) : string :=
  s +:+ String.string_of_list_ascii (replicate (n - String.length s) " "%char).

(** [sorted(l)] with [<] given by [lt], or by [<] on a key.  Python's sort
    is stable and uses [<] only.  For an order such as [<] on strings the
    stable arrangement is the one reached by inserting each element, from
    the right, in front of the first element that is not smaller than it. *)
Fixpoint insert_sorted {A} (lt : A -> A -> bool) (x : A) (l : list A) : list A :=
  match l with
  | [] => [x]
  | y :: l' => if lt y x then y :: insert_sorted lt x l' else x :: l
  end.

Definition sorted {A} (lt : A -> A -> bool) (l : list A) : list A :=
  foldr (insert_sorted lt) [] l.

(** [<] on keys, for [sorted(l, key=...)] with string keys. *)
Definition key_lt {A} (key : A -> string) (a b : A) : bool :=
  str_lt (key a) (key b).

(** [key a <= key b], the order a sort by key establishes. *)
Definition key_le {A} (key : A -> string) (a b : A) : Prop :=
  String.leb (key a) (key b) = true.

Section Engine.

(** The collaborators the source imports: the version parser with its
    ordering, the line parser of the parent class, the built-in [hash] on
    strings and the table of installed packages. *)
Context {V : Type}.
Variable parse_version : string -> V.
Variable version_cmp : V -> V -> comparison.
Variable parse : string -> Result Requirement.
Variable hash : string -> Z.
Variable PKGS : gmap string Package.

(* --------------------------------------------------------------------- *)
(** *** Version comparison *)
(* --------------------------------------------------------------------- *)

Definition version_eq (v1 v2 : string) : bool :=
  match version_cmp (parse_version v1) (parse_version v2) with
  | Eq => true | _ => false end.
Definition version_ge (v1 v2 : string) : bool :=
  match version_cmp (parse_version v1) (parse_version v2) with
  | Lt => false | _ => true end.
Definition version_le (v1 v2 : string) : bool :=
  match version_cmp (parse_version v1) (parse_version v2) with
  | Gt => false | _ => true end.
Definition version_gt (v1 v2 : string) : bool :=
  match version_cmp (parse_version v1) (parse_version v2) with
  | Gt => true | _ => false end.
Definition version_lt (v1 v2 : string) : bool :=
  match version_cmp (parse_version v1) (parse_version v2) with
  | Lt => true | _ => false end.

(** Map from comparison operator to actual version comparison function. *)
Definition OP_FUNCS : gmap string (string -> string -> bool) :=
  <["==" := version_eq]> (
  <[">=" := version_ge]> (
  <["<=" := version_le]> (
  <[">" := version_gt]> (
  <["<" := version_lt]> ∅)))).

(** [opfunc = OP_FUNCS.get(op, OP_FUNCS['>=']); return opfunc(ver1, ver2)]. *)
Definition compare_versions (ver1 op ver2 : string) : bool :=
  let opfunc := default (OP_FUNCS !!! ">=") (OP_FUNCS !! op) in
  opfunc ver1 ver2.

(* --------------------------------------------------------------------- *)
(** *** RequirementPlus *)
(* --------------------------------------------------------------------- *)

(** [__eq__]: [set(self.specs) == set(other.specs)]; every value of the
    model has [specs], so the [hasattr] test passes. *)
Definition RequirementPlus_eq (self other : Requirement) : bool :=
  bool_decide ((list_to_set (specs self) : gset (string * string))
               = list_to_set (specs other)).

(** [spec_string(color=False)]. *)
Definition spec_string (self : Requirement) : string :=
  join "," (map spec_text (specs self)).

(** [to_str(color=False, align)]. *)
Definition to_str (self : Requirement) (align : bool) : string :=
  if local_file self then join " " ["-e"; path self]
  else if truthy (vcs self) then
    let hashstr := "#egg=" +:+ name self in
    let url := join "@" [uri self; revision self] in
    let spec := join "" [url; hashstr] in
    join " " ["-e"; spec]
  else
    let extras_str :=
      match extras self with
      | [] => ""
      | _ => "[" +:+ join ", " (extras self) +:+ "]"
      end in
    let vers := spec_string self in
    let name_str := ljust (if align then 25 else 0) (name self) in
    name_str +:+ extras_str +:+ " " +:+ vers.

(** [__str__]. *)
Definition RequirementPlus_str (self : Requirement) : string :=
  to_str self false.

(** [__hash__]: [hash(str(self))]. *)
Definition RequirementPlus_hash (self : Requirement) : Z :=
  hash (RequirementPlus_str self).

(** [__lt__].  Every value of the model has a [name] and a [specs] list, so
    neither the [nothing] sentinel nor the [TypeError] fallback is reached. *)
Definition RequirementPlus_lt (self other : Requirement) : bool :=
  if negb (str_lt (name self) (name other)) then false
  else list_lt (specs self) (specs other).

(** [RequirementPlus.parse]: the parent's parser, building the subclass. *)
Definition RequirementPlus_parse (line : string) : Result RequirementPlus :=
  match parse line with
  | Ok r => Ok (RequirementPlus_init r)
  | Raise e => Raise e
  end.

(** [installed_version]: the cached value if there is one; otherwise the
    package table is asked and an installed package is cached as the
    requirement [<project_name> == <base_version>].  The distribution is
    taken to expose [parsed_version.base_version]. *)
Definition installed_version (self : RequirementPlus)
  : Result (option Requirement) * RequirementPlus :=
  match _installed_ver self with
  | Some v => (Ok (Some v), self)
  | None =>
      match PKGS !! lower (name self) with
      | None => (Ok None, self)
      | Some p =>
          let ver := base_version p in
          match parse (join " " [project_name p; "=="; ver]) with
          | Raise e => (Raise e, self)
          | Ok v =>
              (Ok (Some v), {| req := req self; _installed_ver := Some v |})
          end
      end
  end.

(** The two nested loops of [satisfied]. *)
Definition any_spec_matches (self : Requirement)
    (againstspecs : list (string * string)) : bool :=
  existsb (fun a : string * string =>
    existsb (fun s : string * string => compare_versions a.2 s.1 s.2)
            (specs self))
    againstspecs.

(** [satisfied(against)]. *)
Definition satisfied (self : RequirementPlus) (against : option Against)
  : Result bool * RequirementPlus :=
  let '(againstreq, self') :=
    match against with
    | None =>
        match installed_version self with
        | (Ok (Some v), s) => (Ok (Some (AgainstReq v)), s)
        | (Ok None, s) => (Ok None, s)
        | (Raise e, s) => (Raise e, s)
        end
    | Some a => (Ok (Some a), self)
    end in
  match againstreq with
  | Raise e => (Raise e, self')
  | Ok None => (Ok false, self')
  | Ok (Some (AgainstStr v)) => (Ok (any_spec_matches self [("", v)]), self')
  | Ok (Some (AgainstReq r)) => (Ok (any_spec_matches self (specs r)), self')
  | Ok (Some AgainstOther) =>
      (Raise (TypeError "Expecting version str or Requirement/RequirementPlus"),
       self')
  end.

(* ===================================================================== *)
(** ** The file system, and computations over it *)
(* ===================================================================== *)

(** Which operations the environment refuses.  [write_fails_at = Some k]
    makes the [k]-th [f.write] (counted from 0) on the open file raise. *)
Record IOFaults : Type := {
  copy2_fails : bool;
  open_fails : bool;
  write_fails_at : option nat;
  remove_fails : bool
}.

Definition no_faults : IOFaults :=
  {| copy2_fails := false; open_fails := false;
     write_fails_at := None; remove_fails := false |}.

(** Files by path with their contents, the faults to come, the number of
    writes done on the open file, and what was printed to stderr. *)
Record World : Type := {
  files : gmap string string;
  faults : IOFaults;
  writes_done : nat;
  stderr : list string
}.

Definition set_files (f : gmap string string -> gmap string string) (w : World) : World :=
  {| files := f (files w); faults := faults w;
     writes_done := writes_done w; stderr := stderr w |}.

Definition set_writes_done (n : nat) (w : World) : World :=
  {| files := files w; faults := faults w;
     writes_done := n; stderr := stderr w |}.

(** A computation that may raise and that changes the world; effects done
    before an exception stay done. *)
Definition M (A : Type) : Type := World -> Result A * World.

Definition ret {A} (a : A) : M A := fun w => (Ok a, w).
Definition raise {A} (e : exn) : M A := fun w => (Raise e, w).
Definition bind {A B} (m : M A) (k : A -> M B) : M B :=
  fun w =>
    match m w with
    | (Ok a, w') => k a w'
    | (Raise e, w') => (Raise e, w')
    end.

Notation "x <- m ;; k" := (bind m (fun x => k))
  (at level 100, m at next level, right associativity).
Notation "m ;;; k" := (bind m (fun _ => k))
  (at level 100, right associativity).

(** [try: m except EnvironmentError as ex: handler ex]. *)
Definition except_EnvironmentError {A} (m : M A)
    (handler : nat -> string -> M A) : M A :=
  fun w =>
    match m w with
    | (Raise (EnvironmentError errno fname), w') => handler errno fname w'
    | r => r
    end.

(** [print_err]. *)
Definition print_err (msg : string) : M unit :=
  fun w => (Ok tt, {| files := files w; faults := faults w;
                      writes_done := writes_done w;
                      stderr := stderr w ++ [msg] |}).

(** [os.path.exists]. *)
Definition os_path_exists (p : string) : M bool :=
  fun w => (Ok (match files w !! p with Some _ => true | None => false end), w).

(** [shutil.copy2]. *)
Definition shutil_copy2 (src dst : string) : M unit :=
  fun w =>
    if copy2_fails (faults w)
    then (Raise (EnvironmentError INVALID_PERMISSIONS dst), w)
    else match files w !! src with
         | None => (Raise (EnvironmentError FILE_NOT_FOUND src), w)
         | Some content => (Ok tt, set_files (insert dst content) w)
         end.

(** [os.remove]. *)
Definition os_remove (p : string) : M unit :=
  fun w =>
    if remove_fails (faults w)
    then (Raise (EnvironmentError INVALID_PERMISSIONS p), w)
    else match files w !! p with
         | None => (Raise (EnvironmentError FILE_NOT_FOUND p), w)
         | Some _ => (Ok tt, set_files (delete p) w)
         end.

(** [open(p, mode)] for the two modes the source uses.  Opening for writing
    creates the file or truncates it; the handle is the path. *)
Definition py_open (p mode : string) : M string :=
  fun w =>
    if String.eqb mode "w" then
      if open_fails (faults w)
      then (Raise (EnvironmentError INVALID_PERMISSIONS p), w)
      else (Ok p, set_writes_done 0 (set_files (insert p "") w))
    else if String.eqb mode "r" then
      match files w !! p with
      | None => (Raise (EnvironmentError FILE_NOT_FOUND p), w)
      | Some _ => (Ok p, w)
      end
    else (Raise (ValueError "invalid mode"), w).

(** [f.write(s)]: appends to the file, unless this write is the faulty one. *)
Definition f_write (f s : string) : M unit :=
  fun w =>
    if bool_decide (write_fails_at (faults w) = Some (writes_done w))
    then (Raise (EnvironmentError 28 f), w)
    else (Ok tt,
          set_writes_done (S (writes_done w))
            (set_files (fun fs => <[f := default "" (fs !! f) +:+ s]> fs) w)).

(** [f.close()]. *)
Definition f_close (f : string) : M unit := ret tt.

(** [f.readlines()] of a file opened in text mode: the lines of the file,
    each with its newline.  A line ends at a line feed, at a carriage
    return, or at a carriage return followed by a line feed, and each of
    these ends is read as one line feed. *)
Fixpoint readlines (s : string) : list string :=
  match s with
  | EmptyString => []
  | String c s' =>
      if Ascii.eqb c (ascii_of_nat 10) then String c "" :: readlines s'
      else if Ascii.eqb c (ascii_of_nat 13) then
        match s' with
        | String c' s'' =>
            if Ascii.eqb c' (ascii_of_nat 10)
            then String c' "" :: readlines s''
            else String (ascii_of_nat 10) "" :: readlines s'
        | EmptyString => [String (ascii_of_nat 10) ""]
        end
      else match readlines s' with
           | [] => [String c ""]
           | l :: ls => String c l :: ls
           end
  end.

(** [FILE_ERRS]: message templates by [errno], the key [None] for an
    exception that has none.  A template is given the file name, the
    message and the text of the exception. *)
Definition FILE_ERRS : gmap (option nat) (string -> string -> string -> string) :=
  <[Some FILE_NOT_FOUND := fun filename _ _ =>
      "Requirements file not found: " +:+ filename]> (
  <[Some INVALID_PERMISSIONS := fun filename _ _ =>
      "Invalid permissions for file: " +:+ filename]> (
  <[None := fun filename msg exc =>
      msg +:+ ": " +:+ filename +:+ nl +:+ exc]> ∅)).

(** [format_env_err(filename, exc, msg)]: [FILE_ERRS.get(errno)] is [None]
    for an [errno] that is no key, and [None] has no [format]. *)
Definition format_env_err (filename : string) (errno : option nat)
    (exc msg : string) : Result string :=
  match FILE_ERRS !! errno with
  | Some fmt => Ok (nl +:+ fmt filename msg exc)
  | None => Raise (AttributeError "format")
  end.

(** [raise FatalError(format_env_err(filename=..., exc=ex, msg=...))] for
    an [EnvironmentError] with this [errno]; the text of the exception is
    taken to be the name of the file it is about. *)
Definition raise_FatalError {A} (filename : string) (errno : nat)
    (exc_filename msg : string) : M A :=
  match format_env_err filename (Some errno) exc_filename msg with
  | Ok m => raise (FatalError m)
  | Raise e => raise e
  end.

(** Running a pure, possibly raising, step inside [M]. *)
Definition lift {A} (r : Result A) : M A := fun w => (r, w).

(* --------------------------------------------------------------------- *)
(** *** Requirementz: the collection *)
(* --------------------------------------------------------------------- *)

(** Names are compared after lowercasing. *)
Definition same_name (a b : Requirement) : bool :=
  String.eqb (lower (name a)) (lower (name b)).

(** The loop of [add_line] over the copy [self[:]]: at the first entry with
    the new requirement's lowercased name it either raises or replaces
    [self[i]]; when the copy is exhausted the requirement is appended. *)
Fixpoint add_line_scan (new : RequirementPlus) (reqname : string) (i : nat)
    (copy self : list RequirementPlus)
  : Result bool * list RequirementPlus :=
  match copy with
  | [] => (Ok true, self ++ [new])
  | existingreq :: copy' =>
      if String.eqb reqname (lower (name existingreq)) then
        if RequirementPlus_eq new existingreq
        then (Raise (ValueError ("Already a requirement: "
                                 +:+ RequirementPlus_str existingreq)), self)
        else (Ok false, <[i := new]> self)
      else add_line_scan new reqname (S i) copy' self
  end.

(** [add_line]: [True] when the requirement was added, [False] when it
    replaced an entry; the collection is returned beside the result. *)
Definition add_line (self : list RequirementPlus) (line : string)
  : Result bool * list RequirementPlus :=
  match RequirementPlus_parse line with
  | Raise (ValueError ex) =>
      (Raise (ValueError ("Invalid requirement spec.: " +:+ ex)), self)
  | Raise e => (Raise e, self)
  | Ok new => add_line_scan new (lower (name new)) 0 self self
  end.

(** [names] and [get_byname]. *)
Definition names (self : list RequirementPlus) : list string :=
  map (fun r : RequirementPlus => name r) self.

Definition get_byname (self : list RequirementPlus) (n : string)
  : option RequirementPlus :=
  List.find (fun r : RequirementPlus => String.eqb (name r) n) self.

(** The generator [RequirementPlus.parse(l) for l in ...] consumed by the
    list constructor: lines are parsed one after the other and the first
    exception ends the loop.  The first component records the lines the
    parser was called on. *)
Fixpoint parse_each (lines : list string)
  : list string * Result (list RequirementPlus) :=
  match lines with
  | [] => ([], Ok [])
  | l :: rest =>
      match RequirementPlus_parse l with
      | Raise e => ([l], Raise e)
      | Ok r =>
          let '(calls, res) := parse_each rest in
          (l :: calls,
           match res with Ok rs => Ok (r :: rs) | Raise e => Raise e end)
      end
  end.

(** [from_lines]: [cls(RequirementPlus.parse(l) for l in sorted(lines))]. *)
Definition from_lines (lines : list string) : Result (list RequirementPlus) :=
  (parse_each (sorted str_lt lines)).2.

(** The lines [from_lines] hands to the parser, in order. *)
Definition from_lines_parser_calls (lines : list string) : list string :=
  (parse_each (sorted str_lt lines)).1.

(** [from_file]. *)
Definition from_file (filename : string) : M (list RequirementPlus) :=
  f <- py_open filename "r" ;;
  fun w => (from_lines (readlines (default "" (files w !! f))), w).

(** [sorted(self, key=lambda r: r.name)]. *)
Definition sorted_by_name (self : list RequirementPlus) : list RequirementPlus :=
  sorted (key_lt (fun r : RequirementPlus => name r)) self.

(* --------------------------------------------------------------------- *)
(** *** SafeWriter *)
(* --------------------------------------------------------------------- *)

(** The instance attributes [__init__] assigns. *)
Record SafeWriter : Type := {
  filename : string;
  mode : string;
  f : option string;
  backup : option string
}.

Definition SafeWriter_init (filename mode : string) : SafeWriter :=
  {| filename := filename; mode := mode; f := None; backup := None |}.

Inductive PyVal : Type := VNone | VStr (s : string).

Definition PyVal_of (o : option string) : PyVal :=
  match o with Some s => VStr s | None => VNone end.

Definition PyVal_truthy (v : PyVal) : bool :=
  match v with VStr s => negb (String.eqb s "") | VNone => false end.

(** Reading [self.<attr>] where [attr] is no method: the four attributes
    of [__init__] are all an instance has, and nothing assigns another. *)
Definition SafeWriter_getattr (self : SafeWriter) (attr : string) : Result PyVal :=
  if String.eqb attr "filename" then Ok (VStr (filename self))
  else if String.eqb attr "mode" then Ok (VStr (mode self))
  else if String.eqb attr "f" then Ok (PyVal_of (f self))
  else if String.eqb attr "backup" then Ok (PyVal_of (backup self))
  else Raise (AttributeError attr).

(** [file_backup]. *)
Definition file_backup (self : SafeWriter) : M SafeWriter :=
  there <- os_path_exists (filename self) ;;
  if negb there then ret self
  else
    let backupfile := filename self +:+ ".bak" in
    except_EnvironmentError (shutil_copy2 (filename self) backupfile)
      (fun errno fname =>
         raise_FatalError (filename self) errno fname "Failed to backup") ;;;
    ret {| filename := filename self; mode := mode self; f := f self;
           backup := Some backupfile |}.

(** [file_backup_remove]. *)
Definition file_backup_remove (self : SafeWriter) : M unit :=
  let backupfile := filename self +:+ ".bak" in
  there <- os_path_exists backupfile ;;
  if negb there then
    backed_up <- lift (SafeWriter_getattr self "backed_up") ;;
    ret tt
  else
    except_EnvironmentError (os_remove backupfile)
      (fun errno fname =>
         raise_FatalError backupfile errno fname "Failed to remove backup file").

(** [__enter__]. *)
Definition SafeWriter_enter (self : SafeWriter) : M (string * SafeWriter) :=
  self <- file_backup self ;;
  h <- py_open (filename self) (mode self) ;;
  ret (h, {| filename := filename self; mode := mode self; f := Some h;
             backup := backup self |}).

(** [__exit__(extype, val, tb)]; the result says whether the exception is
    to be suppressed. *)
Definition SafeWriter_exit (self : SafeWriter) (extype : option exn) : M bool :=
  match f self with
  | Some h => f_close h
  | None => raise (AttributeError "close")
  end ;;;
  match extype with
  | None => file_backup_remove self ;;; ret false
  | Some _ =>
      if PyVal_truthy (PyVal_of (backup self)) then
        print_err ("A backup file was saved: " +:+ default "" (backup self)) ;;;
        ret false
      else
        print_err "No backup was saved!" ;;; ret false
  end.

(** [with SafeWriter(filename, mode) as f: body]. *)
Definition with_SafeWriter (filename mode : string) (body : string -> M unit)
  : M unit :=
  fun w =>
    match SafeWriter_enter (SafeWriter_init filename mode) w with
    | (Raise e, w1) => (Raise e, w1)
    | (Ok (h, self), w1) =>
        match body h w1 with
        | (Ok tt, w2) =>
            match SafeWriter_exit self None w2 with
            | (Ok _, w3) => (Ok tt, w3)
            | (Raise e, w3) => (Raise e, w3)
            end
        | (Raise e, w2) =>
            match SafeWriter_exit self (Some e) w2 with
            | (Ok true, w3) => (Ok tt, w3)
            | (Ok false, w3) => (Raise e, w3)
            | (Raise e', w3) => (Raise e', w3)
            end
        end
    end.

(** What [write] writes first: the sorted requirements, one per line. *)
Definition serialize (self : list RequirementPlus) : string :=
  join nl (map (fun r : RequirementPlus => RequirementPlus_str r)
               (sorted_by_name self)).

(** The body of [write]: the two [f.write] calls. *)
Definition write_body (self : list RequirementPlus) (h : string) : M unit :=
  f_write h (serialize self) ;;; f_write h nl.

(** [Requirementz.write]. *)
Definition write (self : list RequirementPlus) (filename : string) : M unit :=
  with_SafeWriter filename "w" (write_body self).

(* --------------------------------------------------------------------- *)
(** *** StatusLine: how a requirement is classified *)
(* --------------------------------------------------------------------- *)

(** [s.endswith(suffix)]. *)
Definition endswith (suffix s : string) : bool :=
  String.prefix (String.rev suffix) (String.rev s).

(** The part of a status line that classifies: the error flag and the
    marker ([' '] exact, ['-'] loose, ['!'] error). *)
Record StatusLine : Type := {
  status_req : RequirementPlus;
  error : bool;
  errstatus : string
}.

(** [StatusLine.__init__], as far as [error] and [errstatus] go. *)
Definition StatusLine_init (r : RequirementPlus) : Result StatusLine :=
  match installed_version r with
  | (Raise e, _) => Raise e
  | (Ok installedver, r1) =>
      let includedvers : gset string :=
        list_to_set (map snd (List.filter
          (fun s : string * string => endswith "=" s.1) (specs r1))) in
      match installedver with
      | None => Ok {| status_req := r1; error := true; errstatus := "!" |}
      | Some iv =>
          match specs iv with
          | [] => Raise IndexError
          | (_, installverstr) :: _ =>
              match satisfied r1 None with
              | (Raise e, _) => Raise e
              | (Ok true, r2) =>
                  Ok {| status_req := r2; error := false;
                        errstatus :=
                          if bool_decide (installverstr ∈ includedvers)
                          then " " else "-" |}
              | (Ok false, r2) =>
                  Ok {| status_req := r2; error := true; errstatus := "!" |}
              end
          end
      end
  end.

(* ===================================================================== *)
(** ** The commands and the package table *)
(* ===================================================================== *)

(** [str(ex)] of the built-in exceptions is Python's; for the exceptions
    the source raises with a message, and for [FatalError], whose
    [__str__] returns [msg], it is the message. *)
Variable exn_text : exn -> string.

Definition str_exn (e : exn) : string :=
  match e with
  | ValueError m => m
  | TypeError m => m
  | FatalError m => m
  | _ => exn_text e
  end.

(* --------------------------------------------------------------------- *)
(** *** Installed packages *)
(* --------------------------------------------------------------------- *)

(** [load_packages], given what [pip.get_installed_distributions] returned
    or raised: the dict comprehension
    [{p.project_name.lower(): p for p in ...}], in which a later
    distribution replaces an earlier one of the same key. *)
Definition load_packages (pip_result : Result (list Package))
  : Result (gmap string Package) :=
  match pip_result with
  | Ok dists =>
      Ok (foldl (fun pkgs p => <[lower (project_name p) := p]> pkgs) ∅ dists)
  | Raise ex =>
      Raise (FatalError ("Unable to retrieve packages with pip: " +:+ str_exn ex))
  end.

(** [pkg_installed_version]; the distribution is taken to expose
    [parsed_version.base_version], as in [installed_version]. *)
Definition pkg_installed_version (pkgname : string) : option string :=
  match PKGS !! lower pkgname with
  | None => None
  | Some p => Some (base_version p)
  end.

(** [PKGS[p].location] for a key [p] of the table. *)
Definition package_location (pname : string) : string :=
  match PKGS !! pname with
  | Some p => location p
  | None => ""
  end.

(** [StatusLine.__init__], its last two lines:
    [self.pkg = PKGS.get(self.req.name, None)] and
    [self.pkg_location = getattr(self.pkg, 'location', None)]. *)
Definition StatusLine_pkg_location (r : RequirementPlus) : option string :=
  match PKGS !! name r with
  | Some p => Some (location p)
  | None => None
  end.

(** The order in which [list_packages] prints: [sorted(PKGS)], sorted
    again by location when asked for. *)
Definition list_packages_order (by_location : bool) : list string :=
  let pkgs := sorted str_lt (map fst (map_to_list PKGS)) in
  if by_location then sorted (key_lt package_location) pkgs else pkgs.

(* --------------------------------------------------------------------- *)
(** *** Download counts *)
(* --------------------------------------------------------------------- *)

(** [verinfo.get('downloads', 0)]; an info dict is given by its integer
    entries. *)
Definition verinfo_downloads (verinfo : gmap string Z) : Z :=
  default 0%Z (verinfo !! "downloads").

(** [get_pypi_release_dls]: [releases] maps a version to the list of its
    files' info dicts; [None] and the empty dict give 0. *)
Definition get_pypi_release_dls
    (releases : option (gmap string (list (gmap string Z)))) : Z :=
  match releases with
  | None => 0%Z
  | Some rels =>
      if bool_decide (rels = ∅) then 0%Z
      else map_fold (fun _ infos total =>
                       (total + foldr (fun vi acc => verinfo_downloads vi + acc) 0 infos)%Z)
                    0%Z rels
  end.

(* --------------------------------------------------------------------- *)
(** *** Duplicates *)
(* --------------------------------------------------------------------- *)

(** A dict keyed by requirements, in insertion order.  Two keys are the
    same key when their hashes are equal and they are the same object or
    [==]; an object has its own hash and is [==] to itself, so the test on
    hash and [==] covers both. *)
Definition same_key (a b : RequirementPlus) : bool :=
  Z.eqb (RequirementPlus_hash a) (RequirementPlus_hash b)
  && RequirementPlus_eq a b.

(** [d[k] = v]: the value of the entry with that key is replaced, or the
    entry is added at the end. *)
Fixpoint dict_set (d : list (RequirementPlus * nat)) (k : RequirementPlus)
    (v : nat) : list (RequirementPlus * nat) :=
  match d with
  | [] => [(k, v)]
  | (k', v') :: d' =>
      if same_key k' k then (k', v) :: d' else (k', v') :: dict_set d' k v
  end.

(** [Requirementz.duplicates].  [name] is one of the names, so
    [get_byname] finds an entry. *)
Definition duplicates (self : list RequirementPlus)
  : list (RequirementPlus * nat) :=
  let ns := names self in
  foldl (fun dupes n =>
           let namecount := count_occ String.string_dec ns n in
           if namecount =? 1 then dupes
           else match get_byname self n with
                | Some r => dict_set dupes r (namecount - 1)
                | None => dupes
                end)
        [] ns.

(* --------------------------------------------------------------------- *)
(** *** Commands: the world and what is printed *)
(* --------------------------------------------------------------------- *)

(** The world together with the lines printed to stdout. *)
Record Console : Type := {
  world : World;
  stdout : list string
}.

Definition IO (A : Type) : Type := Console -> Result A * Console.

Definition io_ret {A} (a : A) : IO A := fun c => (Ok a, c).
Definition io_raise {A} (e : exn) : IO A := fun c => (Raise e, c).
Definition io_bind {A B} (m : IO A) (k : A -> IO B) : IO B :=
  fun c =>
    match m c with
    | (Ok a, c') => k a c'
    | (Raise e, c') => (Raise e, c')
    end.

Notation "x <-- m ;; k" := (io_bind m (fun x => k))
  (at level 100, m at next level, right associativity).
Notation "m ;;;; k" := (io_bind m (fun _ => k))
  (at level 100, right associativity).

(** A computation on the world, run inside a command. *)
Definition run {A} (m : M A) : IO A :=
  fun c =>
    let '(r, w) := m (world c) in (r, {| world := w; stdout := stdout c |}).

(** [print(s)]; the prompt of [input] is printed the same way. *)
Definition py_print (s : string) : IO unit :=
  fun c => (Ok tt, {| world := world c; stdout := stdout c ++ [s] |}).

(** The line [list_packages] prints for a package is formatted and
    coloured by the colr package, from the distribution and from
    [pkg_installed_version] of its key. *)
Variable render_package : Package -> option string -> string.

(** The line for [pname], which is a key of the table. *)
Definition package_line (pname : string) : string :=
  match PKGS !! pname with
  | Some p => render_package p (pkg_installed_version pname)
  | None => ""
  end.

(** [list_packages]. *)
Definition list_packages (by_location : bool) : IO unit :=
  foldr (fun pname rest => py_print (package_line pname) ;;;; rest)
        (io_ret tt) (list_packages_order by_location).

(** [file_ensure_exists]; [answer] is what the user types at the prompt.
    Every path of the world is a regular file, so [os.path.isfile] is
    [os_path_exists]. *)
Definition file_ensure_exists (answer filename : string) : IO bool :=
  there <-- run (os_path_exists filename) ;;
  if there then io_ret true
  else
    py_print (nl +:+ "This file doesn't exist yet: " +:+ filename) ;;;;
    py_print "Would you like to create it? (y/N): " ;;;;
    let ans := lower (strip answer) in
    if negb (String.prefix "y" ans) then
      py_print (nl +:+ "User cancelled.") ;;;; io_ret false
    else
      fun c =>
        match run (h <- py_open filename "w" ;; f_close h) c with
        | (Ok _, c') => (Ok true, c')
        | (Raise (EnvironmentError errno fname), c') =>
            (py_print (nl +:+ "Error creating file: " +:+ filename +:+ nl
                       +:+ str_exn (EnvironmentError errno fname)) ;;;;
             io_ret false) c'
        | (Raise (FatalError msg), c') =>
            (py_print (nl +:+ "Error creating file: " +:+ filename +:+ nl
                       +:+ msg) ;;;;
             io_ret false) c'
        | (Raise e, c') => (Raise e, c')
        end.

(** How the loop of [add_lines] ends: by [return 1], or with the
    collection and the messages. *)
Inductive LoopEnd : Type :=
| Returned (code : nat)
| Completed (reqs : list RequirementPlus) (msgs : list string).

(** The loop of [add_lines] over the lines. *)
Fixpoint add_lines_loop (reqs : list RequirementPlus) (msgs : list string)
    (lines : list string) : IO LoopEnd :=
  match lines with
  | [] => io_ret (Completed reqs msgs)
  | line :: rest =>
      match RequirementPlus_parse line with
      | Raise (ValueError _) =>
          run (print_err ("Invalid requirement spec.: " +:+ line)) ;;;;
          io_ret (Returned 1)
      | Raise e => io_raise e
      | Ok new =>
          match add_line reqs line with
          | (Raise (ValueError ex), _) => io_raise (FatalError ex)
          | (Raise e, _) => io_raise e
          | (Ok added, reqs') =>
              let msg :=
                if added
                then "Added requirement: " +:+ RequirementPlus_str new
                else "Replaced requirement with: " +:+ RequirementPlus_str new in
              add_lines_loop reqs' (msgs ++ [msg]) rest
          end
      end
  end.

(** [try: reqs.write(filename) except EnvironmentError as ex: raise
    FatalError(format_env_err(...))].  [FatalError] is a subclass of
    [EnvironmentError] and is caught too; it has no [errno]. *)
Definition write_or_FatalError (reqs : list RequirementPlus)
    (filename : string) : M unit :=
  fun w =>
    let reraise (errno : option nat) (ex : exn) (w' : World) :=
      match format_env_err filename errno (str_exn ex) "Failed to write file" with
      | Ok m => (Raise (FatalError m), w')
      | Raise e => (Raise e, w')
      end in
    match write reqs filename w with
    | (Raise (EnvironmentError errno fname), w') =>
        reraise (Some errno) (EnvironmentError errno fname) w'
    | (Raise (FatalError msg), w') => reraise None (FatalError msg) w'
    | r => r
    end.

(** [add_lines]. *)
Definition add_lines (answer filename : string) (lines : list string) : IO nat :=
  ensured <-- file_ensure_exists answer filename ;;
  if negb ensured then io_ret 1
  else
    reqs <-- run (from_file filename) ;;
    ended <-- add_lines_loop reqs [] lines ;;
    match ended with
    | Returned code => io_ret code
    | Completed reqs' msgs =>
        run (write_or_FatalError reqs' filename) ;;;;
        py_print (join nl msgs) ;;;;
        io_ret 0
    end.

(** [sort_requirements]. *)
Definition sort_requirements (filename : string) : M nat :=
  reqs <- from_file filename ;;
  write reqs filename ;;;
  ret 0.

(** The lines [check_requirements] prints are formatted and coloured by
    the colr package: the requirement alone ([to_str(color=True,
    align=True)]) and the status line ([StatusLine.to_str]).
    [StatusLine.with_latest] asks the registry over the network, may print
    to stderr and may raise. *)
Variable render_spec : RequirementPlus -> string.
Variable render_status : StatusLine -> bool -> string.
Variable with_latest : StatusLine -> bool -> IO string.

(** The loop of [check_requirements]. *)
Fixpoint check_loop (errors_only spec_only latest location : bool)
    (reqs : list RequirementPlus) (errs : nat) : IO nat :=
  match reqs with
  | [] => io_ret errs
  | r :: rest =>
      match StatusLine_init r with
      | Raise e => io_raise e
      | Ok statusline =>
          if errors_only && negb (error statusline)
          then check_loop errors_only spec_only latest location rest errs
          else
            let errs' := if error statusline then S errs else errs in
            (if spec_only then py_print (render_spec (status_req statusline))
             else if latest then
               (line <-- with_latest statusline location ;; py_print line)
             else py_print (render_status statusline location)) ;;;;
            check_loop errors_only spec_only latest location rest errs'
      end
  end.

(** [check_requirements]. *)
Definition check_requirements (filename : string)
    (errors_only spec_only latest location : bool) : IO nat :=
  reqs <-- run (from_file filename) ;;
  match reqs with
  | [] => py_print "Requirements file is empty." ;;;; io_ret 1
  | _ => check_loop errors_only spec_only latest location reqs 0
  end.

(** [str] of a count, and the line [list_duplicates] prints for one entry,
    which is formatted and coloured by the colr package. *)
Variable str_nat : nat -> string.
Variable render_duplicate : RequirementPlus -> nat -> string.

(** [list_duplicates]. *)
Definition list_duplicates (filename : string) : IO nat :=
  reqs <-- run (from_file filename) ;;
  let dupes := duplicates reqs in
  let dupelen := length dupes in
  if dupelen =? 0 then
    py_print "No duplicate requirements found." ;;;; io_ret 0
  else
    py_print ("Found " +:+ str_nat dupelen +:+ " "
              +:+ (if dupelen =? 1 then "requirement" else "requirements")
              +:+ " with duplicate entries:") ;;;;
    foldr (fun (entry : RequirementPlus * nat) rest =>
             py_print (render_duplicate entry.1 entry.2) ;;;; rest)
          (io_ret (foldr Nat.add 0 (map snd dupes)))
          dupes.

(* ===================================================================== *)
(** ** Example data *)
(* ===================================================================== *)

Definition foo_eq_1 : RequirementPlus :=
  RequirementPlus_init (mk_registry "foo" [] [("==", "1")]).
Definition foo_eq_2 : RequirementPlus :=
  RequirementPlus_init (mk_registry "foo" [] [("==", "2")]).
Definition foo_ge_2 : RequirementPlus :=
  RequirementPlus_init (mk_registry "foo" [] [(">=", "2")]).
Definition bar_any : RequirementPlus :=
  RequirementPlus_init (mk_registry "bar" [] []).

Definition foo_any : RequirementPlus :=
  RequirementPlus_init (mk_registry "foo" [] []).

(** File contents: two requirement lines; a comment line and a requirement
    line; a blank line and a requirement line. *)
Definition two_lines : string := "foo == 1" +:+ nl +:+ "bar" +:+ nl.
Definition commented_file : string := "# pinned" +:+ nl +:+ "foo == 1" +:+ nl.
Definition blank_line_file : string := nl +:+ "foo == 1" +:+ nl.

(** A world with one file, [requirements.txt]. *)
Definition one_file_world (content : string) (flt : IOFaults) : World :=
  {| files := {["requirements.txt" := content]}; faults := flt;
     writes_done := 0; stderr := [] |}.

(** A world with no file at all and no fault. *)
Definition empty_world : World :=
  {| files := ∅; faults := no_faults; writes_done := 0; stderr := [] |}.

(** The environment in which the first [f.write] fails. *)
Definition first_write_fails : IOFaults :=
  {| copy2_fails := false; open_fails := false;
     write_fails_at := Some 0; remove_fails := false |}.

(** One installed package, [Foo 1.2]. *)
Definition foo_installed : gmap string Package :=
  {["foo" := {| project_name := "Foo"; base_version := "1.2";
                location := "/usr/lib/python3/site-packages" |}]}.

(** A hash of the bytes of a string, standing in the examples for the
    built-in [hash], which is keyed anew in every process. *)
Fixpoint bytes_hash_acc (acc : Z) (s : string) : Z :=
  match s with
  | EmptyString => acc
  | String c s' => bytes_hash_acc (31 * acc + Z.of_N (N_of_ascii c)) s'
  end.
Definition bytes_hash (s : string) : Z := bytes_hash_acc 7 s.

(** The environments in which the backup copy is refused, and in which
    opening the target for writing is refused. *)
Definition copy_refused : IOFaults :=
  {| copy2_fails := true; open_fails := false;
     write_fails_at := None; remove_fails := false |}.
Definition open_refused : IOFaults :=
  {| copy2_fails := false; open_fails := true;
     write_fails_at := None; remove_fails := false |}.

(** A file in which one name occurs twice. *)
Definition duplicated_file : string := "foo == 1" +:+ nl +:+ "foo == 2" +:+ nl.

(** A console on which nothing was printed yet. *)
Definition console (w : World) : Console := {| world := w; stdout := [] |}.

(** Plain renderings, standing in the examples for the coloured ones, a
    registry that cannot be reached, and the text of a built-in exception. *)
Definition plain_status (sl : StatusLine) (location : bool) : string :=
  errstatus sl +:+ " " +:+ name (status_req sl).
Definition plain_spec (r : RequirementPlus) : string := to_str r true.
Definition offline (sl : StatusLine) (location : bool) : IO string :=
  io_raise (ValueError "offline").
Definition plain_exn (e : exn) : string := "error".
Definition digit_str (n : nat) : string := String (ascii_of_nat (48 + n)) "".
Definition plain_duplicate (r : RequirementPlus) (n : nat) : string :=
  name r +:+ " has " +:+ digit_str n.

(** Two distributions whose names differ in letter case only, and one more. *)
Definition three_dists : list Package :=
  [ {| project_name := "Foo"; base_version := "1.0"; location := "/usr/lib" |};
    {| project_name := "bar"; base_version := "0.3"; location := "/opt/lib" |};
    {| project_name := "FOO"; base_version := "1.2"; location := "/opt/lib" |} ].

(** The files of two releases: one file with 7 downloads; one with 5 and
    one without a count. *)
Definition files_of_1_0 : list (gmap string Z) :=
  [<["downloads" := 7%Z]> ∅].
Definition files_of_1_1 : list (gmap string Z) :=
  [<["downloads" := 5%Z]> ∅; ∅].

(* ===================================================================== *)
(** ** Properties *)
(* ===================================================================== *)

(* --------------------------------------------------------------------- *)
(** *** Strings *)
(* --------------------------------------------------------------------- *)

Lemma string_app_cons (c : ascii) (s t : string) :
  String c s +:+ t = String c (s +:+ t).
Proof. reflexivity. Qed.

Lemma string_app_nil_l (s : string) : "" +:+ s = s.
Proof. reflexivity. Qed.

Lemma string_app_nil_r (s : string) : s +:+ "" = s.
Proof. induction s as [|c s IH]; [done|]. by rewrite string_app_cons, IH. Qed.

Lemma string_app_assoc (s t u : string) : (s +:+ t) +:+ u = s +:+ t +:+ u.
Proof.
  induction s as [|c s IH]; [done|]. by rewrite !string_app_cons, IH.
Qed.

(* --------------------------------------------------------------------- *)
(** *** The comparator *)
(* --------------------------------------------------------------------- *)

Lemma OP_FUNCS_ge : OP_FUNCS !! ">=" = Some version_ge.
Proof. reflexivity. Qed.

Lemma OP_FUNCS_unknown (op : string) :
  op ∉ OPERATORS -> OP_FUNCS !! op = None.
Proof.
  unfold OPERATORS, OP_FUNCS. intros Hop.
  repeat (rewrite lookup_insert_ne; [| intros <-; apply Hop; set_solver]).
  apply lookup_empty.
Qed.

(** C5.  An operator string that is none of [==], [>=], [<=], [>], [<] is
    evaluated as [>=]: the comparison does not raise, and its result is the
    one the operator [>=] gives on the same two versions. *)
Theorem compare_versions_unknown_operator (ver1 op ver2 : string) :
  op ∉ ["=="; ">="; "<="; ">"; "<"] ->
  compare_versions ver1 op ver2 = compare_versions ver1 ">=" ver2
  /\ compare_versions ver1 op ver2 = version_ge ver1 ver2.
Proof.
  intros Hop. unfold compare_versions.
  rewrite (OP_FUNCS_unknown op Hop), OP_FUNCS_ge. simpl.
  unfold lookup_total, map_lookup_total. rewrite OP_FUNCS_ge. done.
Qed.

(* --------------------------------------------------------------------- *)
(** *** Satisfaction *)
(* --------------------------------------------------------------------- *)

(** Asking again for the installed version answers from the cache. *)
Lemma installed_version_cached (self self' : RequirementPlus) (inst : Requirement) :
  installed_version self = (Ok (Some inst), self') ->
  installed_version self' = (Ok (Some inst), self') /\ req self' = req self.
Proof.
  unfold installed_version. intros H.
  destruct (_installed_ver self) as [c|] eqn:Hc.
  - injection H as -> ->. by rewrite Hc.
  - destruct (PKGS !! lower (name self)) as [p|]; [|discriminate].
    destruct (parse _) as [v|e]; [|discriminate].
    injection H as -> <-. done.
Qed.

(** The first request for the installed version of a requirement whose
    package is in the table parses [<project_name> == <version>]. *)
Lemma installed_version_of_package
    (self : RequirementPlus) (p : Package) (inst : Requirement) :
  _installed_ver self = None ->
  PKGS !! lower (name self) = Some p ->
  parse (join " " [project_name p; "=="; base_version p]) = Ok inst ->
  installed_version self
  = (Ok (Some inst), {| req := req self; _installed_ver := Some inst |}).
Proof. intros Hc Hp Hparse. unfold installed_version. by rewrite Hc, Hp, Hparse. Qed.

Lemma any_spec_matches_single (self : Requirement) (o v : string) :
  any_spec_matches self [(o, v)]
  = existsb (fun s : string * string => compare_versions v s.1 s.2) (specs self).
Proof. unfold any_spec_matches. simpl. by rewrite orb_false_r. Qed.

(** C3.  For a requirement whose package is installed at version [v] (the
    installed requirement reads [== v]), [satisfied] returns normally, and
    it returns [True] exactly when at least one (operator, version) pair of
    the requirement's specs evaluates true against [v]; the status line
    flags an error exactly when it returns [False]. *)
Theorem satisfied_iff_some_spec_matches
    (self : RequirementPlus) (inst : Requirement) (v : string) :
  (installed_version self).1 = Ok (Some inst) ->
  specs inst = [("==", v)] ->
  exists (b : bool) (self' : RequirementPlus) (sl : StatusLine),
    satisfied self None = (Ok b, self')
    /\ (b = true <->
        exists op ver, In (op, ver) (specs self)
                       /\ compare_versions v op ver = true)
    /\ StatusLine_init self = Ok sl
    /\ error sl = negb b.
Proof.
  intros Hinst Hv.
  destruct (installed_version self) as [res s1] eqn:Hiv. simpl in Hinst. subst res.
  destruct (installed_version_cached _ _ _ Hiv) as [Hiv1 Hreq].
  set (b := existsb (fun s : string * string => compare_versions v s.1 s.2)
                    (specs self)).
  assert (Hsat : forall s, installed_version s = (Ok (Some inst), s1) ->
                           req s = req self ->
                           satisfied s None = (Ok b, s1)).
  { intros s Hs Hr. unfold satisfied. rewrite Hs, Hv.
    by rewrite any_spec_matches_single, Hr. }
  exists b, s1.
  exists {| status_req := s1; error := negb b;
            errstatus := if b then
                           (if bool_decide (v ∈ (list_to_set (map snd (List.filter
                              (fun s : string * string => endswith "=" s.1)
                              (specs s1))) : gset string))
                            then " " else "-")
                         else "!" |}.
  split; [by apply Hsat|]. split; [|split].
  - unfold b. rewrite existsb_exists. split.
    + intros [[op ver] [Hin Hc]]. by exists op, ver.
    + intros (op & ver & Hin & Hc). by exists (op, ver).
  - unfold StatusLine_init. rewrite Hiv, Hv, (Hsat s1 Hiv1 Hreq).
    by destruct b.
  - done.
Qed.

(* --------------------------------------------------------------------- *)
(** *** Equality and hashing *)
(* --------------------------------------------------------------------- *)



(** C10.  Equality looks at the specs only and the hash at the whole line:
    for two names [n1], [n2] whose lines [n1 == 1.0] and [n2 == 1.0] the
    string hash tells apart, the two requirements have different names, the
    same specs, compare equal, and have different hashes. *)
Theorem equal_requirements_with_different_hashes (n1 n2 : string) :
  hash (n1 +:+ " == 1.0") <> hash (n2 +:+ " == 1.0") ->
  exists r1 r2 : Requirement,
    name r1 = n1 /\ name r2 = n2
    /\ name r1 <> name r2
    /\ specs r1 = specs r2
    /\ RequirementPlus_eq r1 r2 = true
    /\ RequirementPlus_hash r1 <> RequirementPlus_hash r2.
Proof.
  intros Hsep.
  exists (mk_registry n1 [] [("==", "1.0")]), (mk_registry n2 [] [("==", "1.0")]).
  assert (Hstr : forall n, RequirementPlus_str (mk_registry n [] [("==", "1.0")])
                           = n +:+ " == 1.0").
  { intros n. unfold RequirementPlus_str, to_str, ljust. simpl.
    by rewrite !string_app_nil_r. }
  repeat split; try done.
  - simpl. intros ->. by apply Hsep.
  - unfold RequirementPlus_hash. by rewrite !Hstr.
Qed.

(* --------------------------------------------------------------------- *)
(** *** Adding a line *)
(* --------------------------------------------------------------------- *)

Lemma add_line_scan_no_match (new : RequirementPlus) (i : nat)
    (copy self : list RequirementPlus) :
  (forall e, In e copy -> same_name new e = false) ->
  add_line_scan new (lower (name new)) i copy self = (Ok true, self ++ [new]).
Proof.
  revert i. induction copy as [|e copy IH]; intros i Hno; [done|].
  simpl. pose proof (Hno e (or_introl eq_refl)) as He.
  unfold same_name in He. rewrite He.
  apply IH. intros e' Hin. apply Hno. by right.
Qed.

Lemma add_line_scan_first_match (new e : RequirementPlus) (i k : nat)
    (copy self : list RequirementPlus) :
  copy !! k = Some e ->
  same_name new e = true ->
  (forall j (e' : RequirementPlus), j < k -> copy !! j = Some e' ->
      same_name new e' = false) ->
  add_line_scan new (lower (name new)) i copy self
  = if RequirementPlus_eq new e
    then (Raise (ValueError ("Already a requirement: " +:+ RequirementPlus_str e)),
          self)
    else (Ok false, <[i + k := new]> self).
Proof.
  revert i k. induction copy as [|x copy IH]; intros i k Hk He Hbefore; [done|].
  destruct k as [|k]; simpl in *.
  - injection Hk as ->. unfold same_name in He. rewrite He.
    by rewrite Nat.add_0_r.
  - pose proof (Hbefore 0 x ltac:(lia) eq_refl) as Hx.
    unfold same_name in Hx. rewrite Hx.
    rewrite (IH (S i) k Hk He).
    + by replace (S i + k) with (i + S k) by lia.
    + intros j e' Hj Hl. apply (Hbefore (S j) e'); [lia | done].
Qed.

(** C2, as the code has it.  Let the line parse to [new].  If [e], at index
    [i], is the first entry whose lowercased name is that of [new]: when
    the specs sets are equal the call raises [ValueError] and the
    collection is unchanged; when they differ, [new] replaces [e] at index
    [i] and the call returns [False] (replaced).  If no entry has that
    name, [new] is appended and the call returns [True] (added). *)
Theorem add_line_first_entry_of_that_name
    (self : list RequirementPlus) (line : string) (new : RequirementPlus) :
  RequirementPlus_parse line = Ok new ->
  (forall i (e : RequirementPlus),
      self !! i = Some e ->
      same_name new e = true ->
      (forall j (e' : RequirementPlus), j < i -> self !! j = Some e' ->
          same_name new e' = false) ->
      (RequirementPlus_eq new e = true ->
       exists msg, add_line self line = (Raise (ValueError msg), self))
      /\ (RequirementPlus_eq new e = false ->
          add_line self line = (Ok false, <[i := new]> self)
          /\ <[i := new]> self !! i = Some new
          /\ length (<[i := new]> self) = length self))
  /\ ((forall e, In e self -> same_name new e = false) ->
      add_line self line = (Ok true, self ++ [new])).
Proof.
  intros Hparse. unfold add_line. rewrite Hparse. split.
  - intros i e Hi He Hfirst.
    rewrite (add_line_scan_first_match new e 0 i self self Hi He Hfirst).
    split; intros Heq; rewrite Heq; simpl.
    + eauto.
    + split; [done|]. split; [|apply length_insert].
      apply list_lookup_insert_eq. by eapply lookup_lt_Some.
  - intros Hno. by apply add_line_scan_no_match.
Qed.

(* --------------------------------------------------------------------- *)
(** *** Sorting *)
(* --------------------------------------------------------------------- *)

Lemma string_compare_refl (s : string) : String.compare s s = Eq.
Proof.
  destruct (String.compare s s) eqn:H; [done| |].
  - pose proof (String.compare_antisym s s) as Ha. rewrite H in Ha. discriminate.
  - pose proof (String.compare_antisym s s) as Ha. rewrite H in Ha. discriminate.
Qed.

Lemma str_lt_irrefl (s : string) : str_lt s s = false.
Proof. unfold str_lt, String.ltb. by rewrite string_compare_refl. Qed.

Lemma str_lt_false_leb (a b : string) :
  str_lt b a = false <-> String.leb a b = true.
Proof.
  unfold str_lt, String.ltb, String.leb.
  rewrite (String.compare_antisym a b).
  by destruct (String.compare b a).
Qed.

Lemma str_lt_leb (a b : string) : str_lt a b = true -> String.leb a b = true.
Proof.
  unfold str_lt, String.ltb, String.leb. by destruct (String.compare a b).
Qed.

Lemma string_leb_trans (a b c : string) :
  String.leb a b = true -> String.leb b c = true -> String.leb a c = true.
Proof.
  intros H1 H2. apply Is_true_true.
  apply Is_true_true in H1, H2.
  exact (transitivity (R := String.le) H1 H2).
Qed.

Section Sorting.
Context {A : Type} (key : A -> string).

Lemma insert_sorted_perm (x : A) (l : list A) :
  insert_sorted (key_lt key) x l ≡ₚ x :: l.
Proof.
  induction l as [|y l IH]; [done|]. simpl.
  destruct (key_lt key y x); [|done].
  by rewrite IH, Permutation_swap.
Qed.

Lemma sorted_perm (l : list A) : sorted (key_lt key) l ≡ₚ l.
Proof.
  induction l as [|x l IH]; [done|]. unfold sorted in *. simpl.
  by rewrite insert_sorted_perm, IH.
Qed.

Lemma insert_sorted_ordered (x : A) (l : list A) :
  StronglySorted (key_le key) l ->
  StronglySorted (key_le key) (insert_sorted (key_lt key) x l).
Proof.
  induction l as [|y l IH]; intros Hs; simpl.
  - repeat constructor.
  - apply StronglySorted_inv in Hs as [Hl Hy].
    destruct (key_lt key y x) eqn:Hlt.
    + constructor; [by apply IH|].
      rewrite insert_sorted_perm. constructor; [|done].
      by apply str_lt_leb.
    + assert (Hxy : key_le key x y) by by apply str_lt_false_leb.
      constructor; [by constructor|]. constructor; [done|].
      eapply Forall_impl; [exact Hy|]. intros z Hz.
      by eapply string_leb_trans.
Qed.

Lemma sorted_ordered (l : list A) :
  StronglySorted (key_le key) (sorted (key_lt key) l).
Proof.
  induction l as [|x l IH]; [constructor|].
  unfold sorted in *. simpl. by apply insert_sorted_ordered.
Qed.

(** Inserting [x] leaves the entries of any one key in their order, with
    [x] in front of those of its own key. *)
Lemma insert_sorted_filter (n : string) (x : A) (l : list A) :
  List.filter (fun a => String.eqb (key a) n) (insert_sorted (key_lt key) x l)
  = List.filter (fun a => String.eqb (key a) n) (x :: l).
Proof.
  induction l as [|y l IH]; [done|]. simpl in *.
  destruct (key_lt key y x) eqn:Hlt; [|done]. simpl. rewrite IH.
  destruct (String.eqb (key x) n) eqn:Hx; [|done].
  destruct (String.eqb (key y) n) eqn:Hy; [|done].
  apply String.eqb_eq in Hx, Hy. unfold key_lt in Hlt.
  rewrite Hx, Hy, str_lt_irrefl in Hlt. discriminate.
Qed.

Lemma sorted_filter (n : string) (l : list A) :
  List.filter (fun a => String.eqb (key a) n) (sorted (key_lt key) l)
  = List.filter (fun a => String.eqb (key a) n) l.
Proof.
  induction l as [|x l IH]; [done|]. unfold sorted in *. simpl foldr.
  rewrite insert_sorted_filter. simpl. by rewrite IH.
Qed.

End Sorting.

(** C7, as the code has it.  [sorted(self, key=lambda r: r.name)] is a
    stable sort by name alone: the result is a rearrangement of the
    collection, its names are in non-decreasing order, and the entries of
    any one name keep the order they had in the collection, whatever their
    specs. *)
Theorem sorted_by_name_is_stable_sort_by_name (self : list RequirementPlus) :
  sorted_by_name self ≡ₚ self
  /\ StronglySorted
       (fun a b : RequirementPlus => String.leb (name a) (name b) = true)
       (sorted_by_name self)
  /\ forall n : string,
       List.filter (fun r : RequirementPlus => String.eqb (name r) n)
                   (sorted_by_name self)
       = List.filter (fun r : RequirementPlus => String.eqb (name r) n) self.
Proof.
  unfold sorted_by_name. split; [apply sorted_perm|]. split.
  - apply (sorted_ordered (fun r : RequirementPlus => name r)).
  - intros n. apply (sorted_filter (fun r : RequirementPlus => name r)).
Qed.

(* --------------------------------------------------------------------- *)
(** *** Loading a file *)
(* --------------------------------------------------------------------- *)

Lemma parse_each_ok (lines : list string) (rs : list RequirementPlus) :
  (parse_each lines).2 = Ok rs ->
  (parse_each lines).1 = lines
  /\ Forall2 (fun l r => RequirementPlus_parse l = Ok r) lines rs.
Proof.
  revert rs. induction lines as [|l lines IH]; intros rs; simpl.
  - intros [= <-]. by split; [|constructor].
  - destruct (RequirementPlus_parse l) as [r|e] eqn:Hl; [|discriminate].
    destruct (parse_each lines) as [calls res]. simpl in *.
    destruct res as [rs'|e]; [|discriminate]. intros [= <-].
    destruct (IH rs' eq_refl) as [-> Hall]. split; [done|by constructor].
Qed.

(** The parser is called on the first line, whatever that line is. *)
Lemma parse_each_first_call (l : string) (rest : list string) :
  hd_error (parse_each (l :: rest)).1 = Some l.
Proof.
  simpl. destruct (RequirementPlus_parse l); [|done].
  by destruct (parse_each rest).
Qed.

Lemma from_file_existing (filename content : string) (w : World) :
  files w !! filename = Some content ->
  from_file filename w = (from_lines (readlines content), w).
Proof.
  intros H. unfold from_file, bind, py_open. simpl. by rewrite !H.
Qed.

(** The parser is called on the lines in order from the first on, and on
    no line after one that it rejected. *)
Lemma parse_each_calls (lines : list string) :
  exists rest, lines = (parse_each lines).1 ++ rest.
Proof.
  induction lines as [|l lines [rest IH]]; [by exists []|]. simpl.
  destruct (RequirementPlus_parse l); [|by exists lines].
  destruct (parse_each lines) as [calls res]. simpl in *.
  exists rest. by rewrite <- IH.
Qed.

(** When the loop ends with an exception, the last line the parser was
    called on is the one it rejected, and it accepted the lines before. *)
Lemma parse_each_raise (lines : list string) (e : exn) :
  (parse_each lines).2 = Raise e ->
  exists before l,
    (parse_each lines).1 = before ++ [l]
    /\ RequirementPlus_parse l = Raise e
    /\ Forall (fun l' => exists r, RequirementPlus_parse l' = Ok r) before.
Proof.
  induction lines as [|l lines IH]; simpl; [done|].
  destruct (RequirementPlus_parse l) as [r|e0] eqn:Hl.
  - destruct (parse_each lines) as [calls res]. simpl in *.
    destruct res as [rs|e1]; [done|]. intros [= <-].
    destruct (IH eq_refl) as (before & l0 & -> & Hl0 & Hbefore).
    exists (l :: before), l0. split; [done|]. split; [done|].
    constructor; [by exists r|done].
  - intros [= <-]. exists [], l. by split; [|split; [|constructor]].
Qed.

(** C9, as the code has it.  Loading a file hands its lines to the parser
    in sorted order, blank and comment lines like any other: the caller
    skips nothing.  The parser is called on the lines from the first on, up
    to and including the first line it rejects.  When the load succeeds the
    parser was called on each line of the file, it accepted each one, and
    the result has one entry per line.  When the load fails, the exception
    is the parser's for the last line it was called on, and it had
    accepted the lines before. *)
Theorem from_file_parses_every_line
    (filename content : string) (w : World) :
  files w !! filename = Some content ->
  (exists rest,
      sorted str_lt (readlines content)
      = from_lines_parser_calls (readlines content) ++ rest)
  /\ hd_error (from_lines_parser_calls (readlines content))
     = hd_error (sorted str_lt (readlines content))
  /\ (forall rs, (from_file filename w).1 = Ok rs ->
        from_lines_parser_calls (readlines content)
        = sorted str_lt (readlines content)
        /\ (forall l, In l (readlines content) ->
                      In l (from_lines_parser_calls (readlines content)))
        /\ Forall2 (fun l r => RequirementPlus_parse l = Ok r)
                   (sorted str_lt (readlines content)) rs
        /\ length rs = length (readlines content))
  /\ (forall e, (from_file filename w).1 = Raise e ->
        exists before l,
          from_lines_parser_calls (readlines content) = before ++ [l]
          /\ RequirementPlus_parse l = Raise e
          /\ Forall (fun l' => exists r, RequirementPlus_parse l' = Ok r)
                    before).
Proof.
  intros Hf. rewrite (from_file_existing _ _ _ Hf). simpl.
  unfold from_lines, from_lines_parser_calls.
  pose proof (sorted_perm (fun s : string => s) (readlines content)) as Hperm.
  change (key_lt (fun s : string => s)) with str_lt in Hperm.
  split; [apply parse_each_calls|]. split; [|split].
  - destruct (sorted str_lt (readlines content)) as [|l rest]; [done|].
    apply parse_each_first_call.
  - intros rs Hload. destruct (parse_each_ok _ _ Hload) as [Hcalls Hall].
    rewrite Hcalls. split; [done|]. split; [|split].
    + intros l Hl. apply list_elem_of_In. rewrite Hperm.
      by apply list_elem_of_In.
    + done.
    + rewrite <- (Forall2_length _ _ _ Hall). by rewrite Hperm.
  - intros e Hload. by apply parse_each_raise.
Qed.

(* --------------------------------------------------------------------- *)
(** *** Writing with a backup *)
(* --------------------------------------------------------------------- *)

Lemma string_length_app (s t : string) :
  String.length (s +:+ t) = String.length s + String.length t.
Proof.
  induction s as [|c s IH]; [done|]. rewrite string_app_cons. simpl.
  by rewrite IH.
Qed.

Lemma backup_path_ne (p : string) : p +:+ ".bak" <> p.
Proof.
  intros H. apply (f_equal String.length) in H.
  rewrite string_length_app in H. simpl in H. lia.
Qed.

(** Entering, for a target that exists and a copy that succeeds: the backup
    holds the target's content; and either the target was opened, and is
    now empty, or opening raised and the target is as it was. *)
Lemma SafeWriter_enter_existing (p c : string) (w : World) :
  files w !! p = Some c ->
  copy2_fails (faults w) = false ->
  SafeWriter_enter (SafeWriter_init p "w") w
  = if open_fails (faults w)
    then (Raise (EnvironmentError INVALID_PERMISSIONS p),
          set_files (insert (p +:+ ".bak") c) w)
    else (Ok (p, {| filename := p; mode := "w"; f := Some p;
                    backup := Some (p +:+ ".bak") |}),
          set_writes_done 0
            (set_files (insert p "") (set_files (insert (p +:+ ".bak") c) w))).
Proof.
  intros Hp Hc.
  unfold SafeWriter_enter, file_backup, bind, os_path_exists,
    except_EnvironmentError, shutil_copy2, SafeWriter_init. simpl.
  rewrite Hp. simpl. rewrite Hc, Hp. simpl.
  unfold py_open. simpl. by destruct (open_fails (faults w)).
Qed.

Lemma SafeWriter_enter_missing (p : string) (w : World) :
  files w !! p = None ->
  SafeWriter_enter (SafeWriter_init p "w") w
  = if open_fails (faults w)
    then (Raise (EnvironmentError INVALID_PERMISSIONS p), w)
    else (Ok (p, {| filename := p; mode := "w"; f := Some p; backup := None |}),
          set_writes_done 0 (set_files (insert p "") w)).
Proof.
  intros Hp.
  unfold SafeWriter_enter, file_backup, bind, os_path_exists, SafeWriter_init.
  simpl. rewrite Hp. simpl.
  unfold py_open. simpl. by destruct (open_fails (faults w)).
Qed.

(** The body changes the open file only, and leaves in it a prefix of what
    it was to write. *)
Lemma write_body_frame (self : list RequirementPlus) (h old : string)
    (w w1 : World) (r : Result unit) :
  files w !! h = Some old ->
  write_body self h w = (r, w1) ->
  faults w1 = faults w
  /\ stderr w1 = stderr w
  /\ (forall q, q <> h -> files w1 !! q = files w !! q)
  /\ match r with
     | Ok _ => files w1 !! h = Some ((old +:+ serialize self) +:+ nl)
     | Raise _ => files w1 !! h = Some old
                  \/ files w1 !! h = Some (old +:+ serialize self)
     end.
Proof.
  intros Hh. unfold write_body, bind, f_write.
  destruct (bool_decide (write_fails_at (faults w) = Some (writes_done w))).
  - intros [= <- <-]. repeat split; auto.
  - simpl.
    destruct (bool_decide (write_fails_at (faults w) = Some (S (writes_done w)))).
    + intros [= <- <-]. simpl. rewrite Hh. simpl. repeat split.
      * intros q Hq. by rewrite lookup_insert_ne.
      * right. by rewrite lookup_insert_eq.
    + intros [= <- <-]. simpl. rewrite Hh. simpl. repeat split.
      * intros q Hq. by rewrite !lookup_insert_ne.
      * by rewrite !lookup_insert_eq.
Qed.

Lemma write_body_no_fault (self : list RequirementPlus) (h old : string)
    (w : World) :
  files w !! h = Some old ->
  write_fails_at (faults w) = None ->
  exists w1,
    write_body self h w = (Ok tt, w1)
    /\ faults w1 = faults w
    /\ (forall q, q <> h -> files w1 !! q = files w !! q)
    /\ files w1 !! h = Some ((old +:+ serialize self) +:+ nl).
Proof.
  intros Hh Hnone.
  destruct (write_body self h w) as [r w1] eqn:Hbody.
  destruct (write_body_frame self h old w w1 r Hh Hbody) as (Hf & _ & Hfr & Hw).
  assert (Hr : r = Ok tt).
  { revert Hbody. unfold write_body, bind, f_write.
    destruct w as [fs flt wd err]. cbn in *.
    repeat first [ rewrite Hnone
                 | rewrite bool_decide_eq_false_2 by done
                 | progress cbn ].
    by intros [= <- _]. }
  subst r. by exists w1.
Qed.

(** Leaving after an exception: a message is printed, no file is touched,
    and the exception is not suppressed. *)
Lemma SafeWriter_exit_exception (self : SafeWriter) (h : string) (e : exn)
    (w : World) :
  f self = Some h ->
  exists w1, SafeWriter_exit self (Some e) w = (Ok false, w1)
             /\ files w1 = files w.
Proof.
  intros Hf. unfold SafeWriter_exit, bind, f_close, ret, print_err.
  rewrite Hf. simpl.
  destruct (PyVal_truthy (PyVal_of (backup self))); simpl; eauto.
Qed.

(** Leaving normally while the backup file is there: it is removed, unless
    removing it is refused. *)
Lemma SafeWriter_exit_backup_present (self : SafeWriter) (h c : string)
    (w : World) :
  f self = Some h ->
  files w !! (filename self +:+ ".bak") = Some c ->
  SafeWriter_exit self None w
  = if remove_fails (faults w)
    then (Raise (FatalError (nl +:+ "Invalid permissions for file: "
                             +:+ filename self +:+ ".bak")), w)
    else (Ok false, set_files (delete (filename self +:+ ".bak")) w).
Proof.
  intros Hf Hb.
  unfold SafeWriter_exit, file_backup_remove, bind, f_close, ret,
    os_path_exists, except_EnvironmentError, os_remove.
  rewrite Hf. simpl. rewrite Hb. simpl.
  destruct (remove_fails (faults w)); [done|]. by rewrite Hb.
Qed.

(** Leaving normally while there is no backup file: the attribute
    [backed_up], which no instance has, is read. *)
Lemma SafeWriter_exit_backup_absent (self : SafeWriter) (h : string) (w : World) :
  f self = Some h ->
  files w !! (filename self +:+ ".bak") = None ->
  SafeWriter_exit self None w = (Raise (AttributeError "backed_up"), w).
Proof.
  intros Hf Hb.
  unfold SafeWriter_exit, file_backup_remove, bind, f_close, ret,
    os_path_exists, lift.
  rewrite Hf. simpl. by rewrite Hb.
Qed.

(** C1, as the code has it.  When the target exists, the backup copy is
    made, and [write] then fails with an exception, the backup file is
    still there afterwards, at [<target>.bak], holding the target's
    content from before the write.  The target itself is not restored: if
    it was opened, it holds what was written before the failure. *)
Theorem failed_write_retains_backup
    (self : list RequirementPlus) (target content : string)
    (w w' : World) (e : exn) :
  files w !! target = Some content ->
  copy2_fails (faults w) = false ->
  write self target w = (Raise e, w') ->
  files w' !! (target +:+ ".bak") = Some content
  /\ (open_fails (faults w) = false ->
      files w' !! target = Some ""
      \/ files w' !! target = Some (serialize self)
      \/ files w' !! target = Some (serialize self +:+ nl)).
Proof.
  intros Ht Hc. unfold write, with_SafeWriter.
  rewrite (SafeWriter_enter_existing target content w Ht Hc).
  destruct (open_fails (faults w)) eqn:Hopen.
  - intros [= <- <-]. simpl. split; [by rewrite lookup_insert_eq | done].
  - set (w1 := set_writes_done 0 _).
    assert (Ht1 : files w1 !! target = Some "") by (simpl; by rewrite lookup_insert_eq).
    assert (Hb1 : files w1 !! (target +:+ ".bak") = Some content).
    { simpl. rewrite lookup_insert_ne by (symmetry; apply backup_path_ne).
      by rewrite lookup_insert_eq. }
    destruct (write_body self target w1) as [r w2] eqn:Hbody.
    destruct (write_body_frame self target "" w1 w2 r Ht1 Hbody)
      as (Hfaults & _ & Hframe & Hwritten).
    assert (Hb2 : files w2 !! (target +:+ ".bak") = Some content).
    { rewrite Hframe; [done | apply backup_path_ne]. }
    destruct r as [[]|e2].
    + rewrite (SafeWriter_exit_backup_present
                 {| filename := target; mode := "w"; f := Some target;
                     backup := Some (target +:+ ".bak") |}
                 target content w2 eq_refl Hb2).
      destruct (remove_fails (faults w2)); [|discriminate].
      intros [= <- <-]. split; [done|]. intros _. right. right.
      by rewrite Hwritten.
    + destruct (SafeWriter_exit_exception
                  {| filename := target; mode := "w"; f := Some target;
                     backup := Some (target +:+ ".bak") |} target e2 w2 eq_refl)
        as (w3 & -> & Hfiles).
      intros [= <- <-]. rewrite Hfiles. split; [done|]. intros _.
      destruct Hwritten as [H|H]; rewrite H; auto.
Qed.

(** C8, where the code departs from it.  Writing to a target that does not
    exist, with no stale backup beside it and no fault of the environment,
    writes and closes the file and then raises [AttributeError]: leaving
    the [with] block reads [self.backed_up], which is never set.  The file
    is written and no backup file exists, but the write does not end
    normally. *)
Theorem write_new_file_raises_AttributeError
    (self : list RequirementPlus) (target : string) (w : World) :
  files w !! target = None ->
  files w !! (target +:+ ".bak") = None ->
  faults w = no_faults ->
  exists w',
    write self target w = (Raise (AttributeError "backed_up"), w')
    /\ files w' !! target = Some (serialize self +:+ nl)
    /\ files w' !! (target +:+ ".bak") = None.
Proof.
  intros Ht Hb Hfaults. unfold write, with_SafeWriter.
  rewrite (SafeWriter_enter_missing target w Ht), Hfaults. simpl.
  set (w1 := set_writes_done 0 _).
  assert (Ht1 : files w1 !! target = Some "") by (simpl; by rewrite lookup_insert_eq).
  assert (Hb1 : files w1 !! (target +:+ ".bak") = None).
  { simpl. by rewrite lookup_insert_ne by (symmetry; apply backup_path_ne). }
  destruct (write_body_no_fault self target "" w1 Ht1) as (w2 & Hbody & _ & Hframe & Hwritten).
  { subst w1. simpl. by rewrite Hfaults. }
  rewrite Hbody.
  rewrite (SafeWriter_exit_backup_absent
             {| filename := target; mode := "w"; f := Some target;
                backup := None |} target); [|done|].
  - exists w2. split; [done|]. split; [done|].
    by rewrite Hframe by apply backup_path_ne.
  - simpl. by rewrite Hframe by apply backup_path_ne.
Qed.

(** Where the target exists and the environment refuses nothing, the
    write ends normally, the target holds the sorted lines and the backup
    is gone. *)
Lemma write_existing_file_commits
    (self : list RequirementPlus) (target content : string) (w : World) :
  files w !! target = Some content ->
  faults w = no_faults ->
  exists w',
    write self target w = (Ok tt, w')
    /\ files w' !! target = Some (serialize self +:+ nl)
    /\ files w' !! (target +:+ ".bak") = None.
Proof.
  intros Ht Hfaults. unfold write, with_SafeWriter.
  rewrite (SafeWriter_enter_existing target content w Ht) by by rewrite Hfaults.
  rewrite Hfaults. simpl.
  set (w1 := set_writes_done 0 _).
  assert (Ht1 : files w1 !! target = Some "") by (simpl; by rewrite lookup_insert_eq).
  destruct (write_body_no_fault self target "" w1 Ht1)
    as (w2 & Hbody & Hf2 & Hframe & Hwritten).
  { subst w1. simpl. by rewrite Hfaults. }
  assert (Hb2 : files w2 !! (target +:+ ".bak") = Some content).
  { rewrite Hframe by apply backup_path_ne. simpl.
    rewrite lookup_insert_ne by (symmetry; apply backup_path_ne).
    by rewrite lookup_insert_eq. }
  rewrite Hbody.
  rewrite (SafeWriter_exit_backup_present
             {| filename := target; mode := "w"; f := Some target;
                backup := Some (target +:+ ".bak") |}
             target content w2 eq_refl Hb2).
  rewrite Hf2. subst w1. simpl. rewrite Hfaults. simpl.
  eexists. split; [done|]. simpl. split.
  - rewrite lookup_delete_ne by apply backup_path_ne. by rewrite Hwritten.
  - by rewrite lookup_delete_eq.
Qed.

(* --------------------------------------------------------------------- *)
(** *** More on the collection *)
(* --------------------------------------------------------------------- *)

Lemma add_line_scan_raise (new : RequirementPlus) (reqname : string) (i : nat)
    (copy self self' : list RequirementPlus) (e : exn) :
  add_line_scan new reqname i copy self = (Raise e, self') -> self' = self.
Proof.
  revert i. induction copy as [|x copy IH]; intros i; simpl; [done|].
  destruct (String.eqb reqname (lower (name x))); [|apply IH].
  destruct (RequirementPlus_eq new x); [|done]. by intros [= _ <-].
Qed.

(** X1.  Whenever [add_line] raises, be it for a line that does not parse
    or for a requirement that is already there, the collection is left
    exactly as it was. *)
Theorem add_line_raise_keeps_collection
    (self self' : list RequirementPlus) (line : string) (e : exn) :
  add_line self line = (Raise e, self') -> self' = self.
Proof.
  unfold add_line. destruct (RequirementPlus_parse line) as [new|e0].
  - apply add_line_scan_raise.
  - destruct e0; by intros [= _ <-].
Qed.

(** A list either has no element satisfying [p], or a first one. *)
Lemma first_match_or_none {A} (p : A -> bool) (l : list A) :
  (forall e, In e l -> p e = false)
  \/ (exists k e, l !! k = Some e /\ p e = true
                  /\ forall j e', j < k -> l !! j = Some e' -> p e' = false).
Proof.
  induction l as [|x l IH]; [left; by intros e []|].
  destruct (p x) eqn:Hx.
  - right. exists 0, x. split; [done|]. split; [done|]. intros j e' Hj. lia.
  - destruct IH as [Hnone | (k & e & Hk & He & Hbefore)].
    + left. intros e [<-|Hin]; auto.
    + right. exists (S k), e. split; [done|]. split; [done|].
      intros [|j] e' Hj Hl; [by injection Hl as <-|].
      apply (Hbefore j e'); [lia | done].
Qed.

(** What a successful [add_line] returns: the new requirement appended, or
    put in the place of the first entry of its name. *)
Lemma add_line_ok_cases (self self' : list RequirementPlus) (line : string)
    (new : RequirementPlus) (b : bool) :
  RequirementPlus_parse line = Ok new ->
  add_line self line = (Ok b, self') ->
  (b = true /\ self' = self ++ [new]
   /\ forall e, In e self -> same_name new e = false)
  \/ (b = false /\ exists k (e : RequirementPlus),
        self !! k = Some e /\ self' = <[k := new]> self
        /\ same_name new e = true
        /\ forall j (e' : RequirementPlus), j < k -> self !! j = Some e' ->
             same_name new e' = false).
Proof.
  intros Hparse. unfold add_line. rewrite Hparse.
  destruct (first_match_or_none
              (fun e : RequirementPlus => same_name new e) self)
    as [Hnone | (k & e & Hk & He & Hbefore)].
  - rewrite (add_line_scan_no_match new 0 self self Hnone).
    intros [= <- <-]. by left.
  - rewrite (add_line_scan_first_match new e 0 k self self Hk He Hbefore).
    destruct (RequirementPlus_eq new e); [done|]. intros [= <- <-].
    right. split; [done|]. by exists k, e.
Qed.

Lemma same_name_false_name (a b : Requirement) :
  same_name a b = false -> String.eqb (name b) (name a) = false.
Proof.
  unfold same_name. intros H. apply String.eqb_neq. intros Heq.
  rewrite Heq, String.eqb_refl in H. discriminate.
Qed.

Lemma get_byname_skip (front back : list RequirementPlus) (n : string) :
  (forall e : RequirementPlus, In e front -> String.eqb (name e) n = false) ->
  get_byname (front ++ back) n = get_byname back n.
Proof.
  unfold get_byname. induction front as [|x front IH]; intros H; [done|].
  simpl. rewrite (H x (or_introl eq_refl)). apply IH.
  intros e He. apply H. by right.
Qed.

(** X2.  After [add_line] has added or replaced a requirement, looking the
    collection up by the new requirement's name finds that requirement. *)
Theorem get_byname_after_add_line
    (self self' : list RequirementPlus) (line : string)
    (new : RequirementPlus) (b : bool) :
  RequirementPlus_parse line = Ok new ->
  add_line self line = (Ok b, self') ->
  get_byname self' (name new) = Some new.
Proof.
  intros Hparse Hadd.
  destruct (add_line_ok_cases self self' line new b Hparse Hadd)
    as [(_ & -> & Hnone) | (_ & k & e & Hk & -> & He & Hbefore)].
  - rewrite get_byname_skip.
    + unfold get_byname. simpl. by rewrite String.eqb_refl.
    + intros e He. by apply same_name_false_name, Hnone.
  - rewrite <- (take_drop_middle self k e Hk).
    rewrite insert_app_r_alt by (rewrite length_take; lia).
    rewrite length_take, (Nat.min_l k) by (apply lookup_lt_Some in Hk; lia).
    rewrite Nat.sub_diag. simpl. rewrite get_byname_skip.
    + unfold get_byname. simpl. by rewrite String.eqb_refl.
    + intros e' He'. apply list_elem_of_In, list_elem_of_lookup in He' as [j Hj].
      apply same_name_false_name, (Hbefore j).
      * apply lookup_lt_Some in Hj. rewrite length_take in Hj. lia.
      * rewrite lookup_take_Some in Hj. apply Hj.
Qed.

(** The lowercased names of a collection, the keys [add_line] compares. *)
Lemma lowered_names_insert (self : list RequirementPlus) (k : nat)
    (new e : RequirementPlus) :
  self !! k = Some e -> same_name new e = true ->
  map (fun r : RequirementPlus => lower (name r)) (<[k := new]> self)
  = map (fun r : RequirementPlus => lower (name r)) self.
Proof.
  intros Hk He. unfold same_name in He. apply String.eqb_eq in He.
  change (map ?f ?l) with (f <$> l). rewrite list_fmap_insert.
  apply list_insert_id. by rewrite list_lookup_fmap, Hk, He.
Qed.

(** X3.  [add_line] keeps a collection free of entries that share a name
    up to letter case: if no two entries have the same lowercased name
    before a successful call, none have after it.  An added requirement
    makes the collection one longer; a replacement leaves its length and
    its lowercased names as they were. *)
Theorem add_line_keeps_names_unique
    (self self' : list RequirementPlus) (line : string) (b : bool) :
  NoDup (map (fun r : RequirementPlus => lower (name r)) self) ->
  add_line self line = (Ok b, self') ->
  NoDup (map (fun r : RequirementPlus => lower (name r)) self')
  /\ length self' = (if b then S (length self) else length self)
  /\ (b = false ->
      map (fun r : RequirementPlus => lower (name r)) self'
      = map (fun r : RequirementPlus => lower (name r)) self).
Proof.
  intros Hnodup Hadd.
  destruct (RequirementPlus_parse line) as [new|e0] eqn:Hparse.
  2: { unfold add_line in Hadd. rewrite Hparse in Hadd. by destruct e0. }
  destruct (add_line_ok_cases self self' line new b Hparse Hadd)
    as [(-> & -> & Hnone) | (-> & k & e & Hk & -> & He & Hbefore)].
  - split; [|split; [|done]].
    + rewrite map_app. simpl. apply NoDup_app. split; [done|]. split.
      * intros n Hn Hk. apply list_elem_of_singleton in Hk as ->.
        apply list_elem_of_In, in_map_iff in Hn as (e & Hen & Hin).
        pose proof (Hnone e Hin) as Hs. unfold same_name in Hs.
        apply String.eqb_neq in Hs. by apply Hs.
      * apply NoDup_singleton.
    + rewrite length_app. simpl. lia.
  - rewrite (lowered_names_insert self k new e Hk He).
    split; [done|]. split; [apply length_insert | done].
Qed.

(* --------------------------------------------------------------------- *)
(** *** More on sorting and loading *)
(* --------------------------------------------------------------------- *)

Lemma insert_sorted_smallest {A} (key : A -> string) (x : A) (l : list A) :
  Forall (key_le key x) l -> insert_sorted (key_lt key) x l = x :: l.
Proof.
  destruct l as [|y l]; [done|]. intros Hall. simpl.
  apply Forall_cons in Hall as [Hxy _].
  unfold key_lt. by rewrite (proj2 (str_lt_false_leb (key x) (key y)) Hxy).
Qed.

Lemma sorted_of_ordered {A} (key : A -> string) (l : list A) :
  StronglySorted (key_le key) l -> sorted (key_lt key) l = l.
Proof.
  induction 1 as [|x l Hl IH Hx]; [done|].
  unfold sorted in *. simpl. rewrite IH. by apply insert_sorted_smallest.
Qed.

(** X4.  Sorting by name is idempotent: a collection that is already in
    name order is returned as it is, so sorting a sorted collection changes
    nothing, and what [write] writes for a collection is what it writes for
    the sorted collection. *)
Theorem sorted_by_name_idempotent (self : list RequirementPlus) :
  sorted_by_name (sorted_by_name self) = sorted_by_name self
  /\ serialize (sorted_by_name self) = serialize self.
Proof.
  assert (H : sorted_by_name (sorted_by_name self) = sorted_by_name self).
  { unfold sorted_by_name. apply sorted_of_ordered, sorted_ordered. }
  split; [done|]. unfold serialize. by rewrite H.
Qed.

Lemma sorted_lines_unique (l1 l2 : list string) :
  l1 ≡ₚ l2 -> sorted str_lt l1 = sorted str_lt l2.
Proof.
  intros Hperm.
  pose proof (sorted_perm (fun s : string => s) l1) as Hp1.
  pose proof (sorted_perm (fun s : string => s) l2) as Hp2.
  pose proof (sorted_ordered (fun s : string => s) l1) as Hs1.
  pose proof (sorted_ordered (fun s : string => s) l2) as Hs2.
  change (key_lt (fun s : string => s)) with str_lt in *.
  apply (StronglySorted_unique_strong (key_le (fun s : string => s)));
    [|done|done|by rewrite Hp1, Hp2].
  intros a b _ _ Hab Hba. by apply String.leb_antisym.
Qed.

(** X5.  Loading does not depend on the order of the lines: the lines are
    sorted before they are parsed, so two files with the same lines in any
    order give the same parser calls and the same result. *)
Theorem from_lines_order_independent (lines lines' : list string) :
  lines ≡ₚ lines' ->
  from_lines lines = from_lines lines'
  /\ from_lines_parser_calls lines = from_lines_parser_calls lines'.
Proof.
  intros Hperm. unfold from_lines, from_lines_parser_calls.
  by rewrite (sorted_lines_unique lines lines' Hperm).
Qed.

(* --------------------------------------------------------------------- *)
(** *** More on satisfaction *)
(* --------------------------------------------------------------------- *)

(** X6.  A requirement whose package is not in the table is never
    satisfied by the installed version: [satisfied()] returns [False],
    nothing is cached, and the status line flags an error. *)
Theorem not_installed_is_not_satisfied (self : RequirementPlus) :
  _installed_ver self = None ->
  PKGS !! lower (name self) = None ->
  satisfied self None = (Ok false, self)
  /\ StatusLine_init self
     = Ok {| status_req := self; error := true; errstatus := "!" |}.
Proof.
  intros Hc Hp. unfold StatusLine_init, satisfied, installed_version.
  by rewrite Hc, Hp.
Qed.

Lemma any_spec_matches_no_specs (self : Requirement)
    (againstspecs : list (string * string)) :
  specs self = [] -> any_spec_matches self againstspecs = false.
Proof.
  intros Hs. unfold any_spec_matches. rewrite Hs.
  by induction againstspecs.
Qed.

(** X7.  A requirement without specs, such as the bare line [foo], is
    never satisfied: whatever it is tested against (the installed version,
    a version string or another requirement), [satisfied] returns [False]
    whenever it returns, so the status line of an installed package with a
    bare requirement flags an error. *)
Theorem bare_requirement_is_never_satisfied
    (self self' : RequirementPlus) (against : option Against) (b : bool) :
  specs self = [] ->
  satisfied self against = (Ok b, self') ->
  b = false
  /\ forall sl, StatusLine_init self = Ok sl -> error sl = true.
Proof.
  intros Hs Hsat.
  assert (Hany : forall s against' b' s',
             specs (req s) = [] ->
             satisfied s against' = (Ok b', s') -> b' = false).
  { intros s against' b' s' Hspecs. unfold satisfied.
    destruct against' as [[v|r|]|].
    - rewrite any_spec_matches_no_specs by done. by intros [= <- _].
    - rewrite any_spec_matches_no_specs by done. by intros [= <- _].
    - done.
    - destruct (installed_version s) as [[[v|]|e] s1].
      + rewrite any_spec_matches_no_specs by done. by intros [= <- _].
      + by intros [= <- _].
      + done. }
  split; [by eapply Hany|].
  intros sl. unfold StatusLine_init.
  destruct (installed_version self) as [[[inst|]|e] s1] eqn:Hiv; [| |done].
  - destruct (specs inst) as [|[o v] rest]; [done|].
    destruct (satisfied s1 None) as [[b1|e1] s2] eqn:Hs1; [|done].
    assert (Hreq : specs (req s1) = []).
    { apply installed_version_cached in Hiv as [_ ->]. done. }
    rewrite (Hany s1 None b1 s2 Hreq Hs1). by intros [= <-].
  - by intros [= <-].
Qed.

(* --------------------------------------------------------------------- *)
(** *** More on writing *)
(* --------------------------------------------------------------------- *)

(** X8.  The message table knows the error numbers 2 and 13 only: for an
    exception with any other error number, [format_env_err] does not
    return a message but raises [AttributeError], since the table lookup
    gives [None], which has no [format]. *)
Theorem format_env_err_unknown_errno (fname exc msg : string) (errno : nat) :
  errno <> FILE_NOT_FOUND -> errno <> INVALID_PERMISSIONS ->
  format_env_err fname (Some errno) exc msg = Raise (AttributeError "format").
Proof.
  intros H2 H13. unfold format_env_err, FILE_ERRS.
  rewrite lookup_insert_ne by congruence.
  rewrite lookup_insert_ne by congruence.
  by rewrite lookup_insert_ne.
Qed.

Lemma write_body_fault (self : list RequirementPlus) (h old : string)
    (w : World) (k : nat) :
  files w !! h = Some old ->
  writes_done w = 0 ->
  write_fails_at (faults w) = Some k -> k < 2 ->
  exists w1,
    write_body self h w = (Raise (EnvironmentError 28 h), w1)
    /\ stderr w1 = stderr w
    /\ faults w1 = faults w
    /\ (forall q, q <> h -> files w1 !! q = files w !! q)
    /\ files w1 !! h = Some (if k is 0 then old else old +:+ serialize self).
Proof.
  intros Hh Hwd Hk Hlt. destruct w as [fs flt wd err]. simpl in *. subst wd.
  unfold write_body, bind, f_write. cbn. rewrite Hk.
  destruct k as [|[|k]]; [| |lia].
  - rewrite bool_decide_eq_true_2 by done. eexists. by repeat split.
  - rewrite bool_decide_eq_false_2 by done. cbn. rewrite Hk.
    rewrite bool_decide_eq_true_2 by done. eexists. repeat split; cbn.
    + intros q Hq. by rewrite lookup_insert_ne.
    + by rewrite Hh, lookup_insert_eq.
Qed.

Lemma SafeWriter_exit_reports (self : SafeWriter) (h b : string) (e : exn)
    (w : World) :
  f self = Some h -> backup self = Some b -> b <> "" ->
  SafeWriter_exit self (Some e) w
  = (Ok false, {| files := files w; faults := faults w;
                  writes_done := writes_done w;
                  stderr := stderr w ++ ["A backup file was saved: " +:+ b] |}).
Proof.
  intros Hf Hb Hne. unfold SafeWriter_exit, bind, f_close, ret, print_err.
  rewrite Hf, Hb. simpl.
  by destruct (String.eqb_spec b "").
Qed.

(** A write to an existing target on which the first or the second
    [f.write] fails. *)
Lemma write_disk_full
    (self : list RequirementPlus) (target content : string) (w : World) (k : nat) :
  files w !! target = Some content ->
  copy2_fails (faults w) = false ->
  open_fails (faults w) = false ->
  write_fails_at (faults w) = Some k -> k < 2 ->
  exists w',
    write self target w = (Raise (EnvironmentError 28 target), w')
    /\ stderr w' = stderr w ++ ["A backup file was saved: " +:+ target +:+ ".bak"].
Proof.
  intros Ht Hc Ho Hk Hlt. unfold write, with_SafeWriter.
  rewrite (SafeWriter_enter_existing target content w Ht Hc), Ho.
  set (w1 := set_writes_done 0 _).
  destruct (write_body_fault self target "" w1 k) as (w2 & -> & Herr & _);
    [by simpl; rewrite lookup_insert_eq | done | done | done |].
  rewrite (SafeWriter_exit_reports _ target (target +:+ ".bak"));
    [|done|done|by destruct target].
  eexists. split; [done|]. simpl. by rewrite Herr.
Qed.

(** X9.  When the target exists and a write to it fails, the operator is
    told where the backup is: the write raises the error of the failed
    [f.write], and exactly one line, [A backup file was saved:
    <target>.bak], is added to stderr. *)
Theorem failed_write_reports_backup
    (self : list RequirementPlus) (target content : string) (w : World) (k : nat) :
  files w !! target = Some content ->
  copy2_fails (faults w) = false ->
  open_fails (faults w) = false ->
  write_fails_at (faults w) = Some k -> k < 2 ->
  exists w',
    write self target w = (Raise (EnvironmentError 28 target), w')
    /\ stderr w' = stderr w ++ ["A backup file was saved: " +:+ target +:+ ".bak"].
Proof. apply write_disk_full. Qed.

(** X10.  When the target does not exist and a write to the new file
    fails, there is no backup to point to: the write raises the error of
    the failed [f.write], [No backup was saved!] is added to stderr, and
    the newly created file stays behind with what was written before the
    failure. *)
Theorem failed_write_of_new_file
    (self : list RequirementPlus) (target : string) (w : World) (k : nat) :
  files w !! target = None ->
  open_fails (faults w) = false ->
  write_fails_at (faults w) = Some k -> k < 2 ->
  exists w',
    write self target w = (Raise (EnvironmentError 28 target), w')
    /\ stderr w' = stderr w ++ ["No backup was saved!"]
    /\ files w' !! target = Some (if k is 0 then "" else serialize self)
    /\ files w' !! (target +:+ ".bak") = files w !! (target +:+ ".bak").
Proof.
  intros Ht Ho Hk Hlt. unfold write, with_SafeWriter.
  rewrite (SafeWriter_enter_missing target w Ht), Ho.
  set (w1 := set_writes_done 0 _).
  destruct (write_body_fault self target "" w1 k)
    as (w2 & -> & Herr & _ & Hframe & Hwritten);
    [by simpl; rewrite lookup_insert_eq | done | done | done |].
  unfold SafeWriter_exit, bind, f_close, ret, print_err. simpl.
  eexists. split; [done|]. simpl. rewrite Herr. split; [done|].
  split; [by destruct k|].
  rewrite Hframe by apply backup_path_ne. simpl.
  by rewrite lookup_insert_ne by (symmetry; apply backup_path_ne).
Qed.

(** X11.  A failure before anything is written leaves the target as it
    was.  If the backup copy is refused, [write] raises [FatalError] and
    the world is untouched; if the copy is made and opening the target is
    refused, the error of [open] is raised, the target keeps its content,
    the backup holds the same content, and nothing is printed. *)
Theorem write_refused_before_writing
    (self : list RequirementPlus) (target content : string) (w : World) :
  files w !! target = Some content ->
  (copy2_fails (faults w) = true ->
   write self target w
   = (Raise (FatalError (nl +:+ "Invalid permissions for file: " +:+ target)), w))
  /\ (copy2_fails (faults w) = false -> open_fails (faults w) = true ->
      exists w',
        write self target w
        = (Raise (EnvironmentError INVALID_PERMISSIONS target), w')
        /\ files w' = <[target +:+ ".bak" := content]> (files w)
        /\ files w' !! target = Some content
        /\ stderr w' = stderr w).
Proof.
  intros Ht. split.
  - intros Hc. unfold write, with_SafeWriter, SafeWriter_enter, file_backup,
      bind, os_path_exists, except_EnvironmentError, shutil_copy2,
      SafeWriter_init. simpl. rewrite Ht. simpl. by rewrite Hc.
  - intros Hc Ho. unfold write, with_SafeWriter.
    rewrite (SafeWriter_enter_existing target content w Ht Hc), Ho.
    eexists. split; [done|]. simpl. split; [done|]. split; [|done].
    by rewrite lookup_insert_ne by apply backup_path_ne.
Qed.

Lemma write_body_exact (self : list RequirementPlus) (h old : string)
    (w : World) :
  files w !! h = Some old ->
  write_fails_at (faults w) = None ->
  exists w1,
    write_body self h w = (Ok tt, w1)
    /\ files w1 = <[h := (old +:+ serialize self) +:+ nl]> (files w)
    /\ faults w1 = faults w
    /\ stderr w1 = stderr w.
Proof.
  intros Hh Hnone. destruct w as [fs flt wd err]. cbn in *.
  unfold write_body, bind, f_write. cbn.
  repeat first [ rewrite Hnone
               | rewrite bool_decide_eq_false_2 by done
               | progress cbn ].
  eexists. split; [done|]. cbn. split; [|done].
  by rewrite Hh, lookup_insert_eq, insert_insert_eq.
Qed.

(** A write to an existing target on which nothing is refused. *)
Lemma write_no_faults
    (self : list RequirementPlus) (target content : string) (w : World) :
  files w !! target = Some content ->
  faults w = no_faults ->
  exists w',
    write self target w = (Ok tt, w')
    /\ files w' = <[target := serialize self +:+ nl]>
                    (delete (target +:+ ".bak") (files w))
    /\ stderr w' = stderr w.
Proof.
  intros Ht Hfaults. unfold write, with_SafeWriter.
  rewrite (SafeWriter_enter_existing target content w Ht) by by rewrite Hfaults.
  rewrite Hfaults. simpl.
  set (w1 := set_writes_done 0 _).
  destruct (write_body_exact self target "" w1)
    as (w2 & -> & Hfiles & Hf2 & Herr);
    [by simpl; rewrite lookup_insert_eq | by simpl; rewrite Hfaults |].
  assert (Hb2 : files w2 !! (target +:+ ".bak") = Some content).
  { rewrite Hfiles. simpl.
    rewrite !lookup_insert_ne by (symmetry; apply backup_path_ne).
    by rewrite lookup_insert_eq. }
  rewrite (SafeWriter_exit_backup_present
             {| filename := target; mode := "w"; f := Some target;
                backup := Some (target +:+ ".bak") |}
             target content w2 eq_refl Hb2).
  rewrite Hf2. simpl. rewrite Hfaults. simpl.
  eexists. split; [done|]. simpl. rewrite Hfiles, Herr. simpl. split; [|done].
  rewrite insert_insert_eq.
  rewrite delete_insert_ne by apply backup_path_ne.
  by rewrite delete_insert_eq.
Qed.

(** X12.  A write on which nothing is refused changes two things only:
    the target holds the sorted requirements, one per line, with a final
    newline, and there is no backup file; every other file, and stderr,
    is as before. *)
Theorem write_commit_changes_target_only
    (self : list RequirementPlus) (target content : string) (w : World) :
  files w !! target = Some content ->
  faults w = no_faults ->
  exists w',
    write self target w = (Ok tt, w')
    /\ files w' = <[target := serialize self +:+ nl]>
                    (delete (target +:+ ".bak") (files w))
    /\ stderr w' = stderr w.
Proof. apply write_no_faults. Qed.

(** X13.  If removing the backup is refused after a complete write,
    [write] raises [FatalError] although the target has been written in
    full; the backup stays, holding the old content. *)
Theorem write_backup_removal_refused
    (self : list RequirementPlus) (target content : string) (w : World) :
  files w !! target = Some content ->
  copy2_fails (faults w) = false ->
  open_fails (faults w) = false ->
  write_fails_at (faults w) = None ->
  remove_fails (faults w) = true ->
  exists w',
    write self target w
    = (Raise (FatalError (nl +:+ "Invalid permissions for file: "
                          +:+ target +:+ ".bak")), w')
    /\ files w' !! target = Some (serialize self +:+ nl)
    /\ files w' !! (target +:+ ".bak") = Some content.
Proof.
  intros Ht Hc Ho Hw Hr. unfold write, with_SafeWriter.
  rewrite (SafeWriter_enter_existing target content w Ht Hc), Ho.
  set (w1 := set_writes_done 0 _).
  destruct (write_body_no_fault self target "" w1)
    as (w2 & -> & Hf2 & Hframe & Hwritten);
    [by simpl; rewrite lookup_insert_eq | done |].
  assert (Hb2 : files w2 !! (target +:+ ".bak") = Some content).
  { rewrite Hframe by apply backup_path_ne. simpl.
    rewrite lookup_insert_ne by (symmetry; apply backup_path_ne).
    by rewrite lookup_insert_eq. }
  rewrite (SafeWriter_exit_backup_present
             {| filename := target; mode := "w"; f := Some target;
                backup := Some (target +:+ ".bak") |}
             target content w2 eq_refl Hb2).
  rewrite Hf2. simpl. rewrite Hr. eexists. by repeat split.
Qed.

(* --------------------------------------------------------------------- *)
(** *** Listing the installed packages *)
(* --------------------------------------------------------------------- *)

Lemma StronglySorted_filter_bool {A} (R : A -> A -> Prop) (p : A -> bool)
    (l : list A) :
  StronglySorted R l -> StronglySorted R (List.filter p l).
Proof.
  induction 1 as [|x l Hl IH Hx]; simpl; [constructor|].
  destruct (p x); [|done]. constructor; [done|].
  apply List.Forall_forall. intros y Hy.
  apply List.filter_In in Hy as [Hy _].
  by apply (proj1 (List.Forall_forall _ _) Hx).
Qed.

Lemma print_each {A B} (line : A -> string) (l : list A) (b : B) (c : Console) :
  foldr (fun a rest => py_print (line a) ;;;; rest) (io_ret b) l c
  = (Ok b, {| world := world c; stdout := stdout c ++ map line l |}).
Proof.
  revert c. induction l as [|a l IH]; intros c; simpl.
  - unfold io_ret. by rewrite app_nil_r; destruct c.
  - unfold io_bind, py_print. simpl. rewrite IH. simpl.
    by rewrite <- app_assoc.
Qed.

(** X14.  [list_packages] prints one line for every key of the package
    table, and changes nothing else.  Without [location] the keys are in
    ascending order.  With [location] they are in ascending order of their
    packages' locations, and the packages of any one location are still
    in ascending order of their keys: the name sort is kept. *)
Theorem list_packages_order_keeps_name_sort :
  (forall by_location c,
      list_packages by_location c
      = (Ok tt, {| world := world c;
                   stdout := stdout c
                             ++ map package_line
                                    (list_packages_order by_location) |}))
  /\ (forall by_location,
        list_packages_order by_location ≡ₚ map fst (map_to_list PKGS))
  /\ StronglySorted (fun a b => String.leb a b = true)
                    (list_packages_order false)
  /\ StronglySorted (key_le package_location) (list_packages_order true)
  /\ (forall loc : string,
        StronglySorted (fun a b => String.leb a b = true)
          (List.filter (fun p => String.eqb (package_location p) loc)
                       (list_packages_order true))).
Proof.
  split; [intros by_location c; apply print_each|].
  unfold list_packages_order.
  pose proof (sorted_perm (fun s : string => s) (map fst (map_to_list PKGS)))
    as Hperm.
  pose proof (sorted_ordered (fun s : string => s) (map fst (map_to_list PKGS)))
    as Hord.
  change (key_lt (fun s : string => s)) with str_lt in *.
  repeat split.
  - intros [|]; [|done]. by rewrite sorted_perm.
  - exact Hord.
  - apply sorted_ordered.
  - intros loc. rewrite sorted_filter. by apply StronglySorted_filter_bool.
Qed.

(* --------------------------------------------------------------------- *)
(** *** Download counts *)
(* --------------------------------------------------------------------- *)

(** X15.  The download count is additive over releases: a release that is
    not yet in the dict adds the downloads of its files, whatever the
    order in which the dict is walked; a file without a [downloads] entry
    adds nothing. *)
Theorem get_pypi_release_dls_additive
    (rels : gmap string (list (gmap string Z))) (ver : string)
    (infos : list (gmap string Z)) :
  rels !! ver = None ->
  get_pypi_release_dls (Some (<[ver := infos]> rels))
  = (get_pypi_release_dls (Some rels)
     + foldr (fun vi acc => default 0 (vi !! "downloads") + acc) 0 infos)%Z.
Proof.
  intros Hver. unfold get_pypi_release_dls.
  rewrite bool_decide_eq_false_2 by apply insert_non_empty.
  rewrite map_fold_insert_L; [|intros; lia|done].
  unfold verinfo_downloads.
  destruct (bool_decide (rels = ∅)) eqn:He; [|done].
  apply bool_decide_eq_true in He. subst rels.
  by rewrite map_fold_empty.
Qed.

(* --------------------------------------------------------------------- *)
(** *** Duplicates *)
(* --------------------------------------------------------------------- *)

Lemma dict_set_nonempty (d : list (RequirementPlus * nat)) (k : RequirementPlus)
    (v : nat) :
  dict_set d k v <> [].
Proof. destruct d as [|[k' v'] d]; simpl; [done|]. by destruct (same_key k' k). Qed.

Lemma get_byname_of_name (self : list RequirementPlus) (n : string) :
  In n (names self) -> exists r, get_byname self n = Some r /\ name r = n.
Proof.
  unfold names, get_byname. intros Hin. apply in_map_iff in Hin as (r & Hr & Hin).
  destruct (List.find (fun r0 : RequirementPlus => String.eqb (name r0) n) self)
    as [r'|] eqn:Hfind.
  - apply find_some in Hfind as [_ Heq]. apply String.eqb_eq in Heq. eauto.
  - apply (find_none _ _ Hfind) in Hin. simpl in Hin.
    rewrite Hr, String.eqb_refl in Hin. discriminate.
Qed.

Lemma duplicates_fold_nil (self : list RequirementPlus) (ns all : list string) :
  (forall n, In n ns -> In n (names self)) ->
  foldl (fun dupes n =>
           let namecount := count_occ String.string_dec all n in
           if namecount =? 1 then dupes
           else match get_byname self n with
                | Some r => dict_set dupes r (namecount - 1)
                | None => dupes
                end) [] ns = []
  <-> (forall n, In n ns -> count_occ String.string_dec all n = 1).
Proof.
  intros Hsub.
  cut (forall d,
    foldl (fun dupes n =>
           let namecount := count_occ String.string_dec all n in
           if namecount =? 1 then dupes
           else match get_byname self n with
                | Some r => dict_set dupes r (namecount - 1)
                | None => dupes
                end) d ns = []
    <-> d = [] /\ (forall n, In n ns -> count_occ String.string_dec all n = 1)).
  { intros H. rewrite H. split; [by intros [_ ?]|by split]. }
  induction ns as [|n ns IH]; intros d; simpl.
  - split; [intros ->; split; [done|by intros ? []]|by intros [-> _]].
  - rewrite IH by (intros; apply Hsub; by right).
    destruct (Nat.eqb_spec (count_occ String.string_dec all n) 1) as [H1|H1].
    + split.
      * intros [-> Hall]. split; [done|]. intros m [<-|Hm]; [done|by apply Hall].
      * intros [-> Hall]. split; [done|]. intros m Hm. apply Hall. by right.
    + destruct (get_byname_of_name self n) as (r & -> & _);
        [apply Hsub; by left|].
      split.
      * intros [Hd _]. by apply dict_set_nonempty in Hd.
      * intros [_ Hall]. destruct H1. apply Hall. by left.
Qed.

Lemma duplicates_empty_iff_nil (self : list RequirementPlus) :
  duplicates self = [] <-> List.NoDup (names self).
Proof.
  unfold duplicates. rewrite duplicates_fold_nil by done.
  symmetry. apply NoDup_count_occ'.
Qed.

(** X16.  [duplicates] reports nothing exactly when the names of the
    collection are pairwise different.  The names are compared as they
    are written, not lowercased as [add_line] compares them. *)
Theorem duplicates_empty_iff_names_differ (self : list RequirementPlus) :
  duplicates self = [] <-> List.NoDup (names self).
Proof. apply duplicates_empty_iff_nil. Qed.

(* --------------------------------------------------------------------- *)
(** *** Commands *)
(* --------------------------------------------------------------------- *)

(** X17.  [file_ensure_exists] touches no file but the one it is asked
    about; a file that exists is left as it is, with nothing printed or
    asked; when the answer does not start with [y], no file is created;
    and it returns [True] only if the file exists afterwards. *)
Theorem file_ensure_exists_is_careful
    (answer filename : string) (c c' : Console) (r : Result bool) :
  file_ensure_exists answer filename c = (r, c') ->
  (forall q, q <> filename ->
             files (world c') !! q = files (world c) !! q)
  /\ (is_Some (files (world c) !! filename) -> r = Ok true /\ c' = c)
  /\ (String.prefix "y" (lower (strip answer)) = false ->
      files (world c') = files (world c))
  /\ (r = Ok true -> is_Some (files (world c') !! filename)).
Proof.
  destruct c as [w out]. unfold file_ensure_exists, io_bind, run, os_path_exists.
  simpl. destruct (files w !! filename) as [content|] eqn:Hfile.
  - unfold io_ret. intros [= <- <-]. simpl. rewrite Hfile. by eauto.
  - unfold py_print. simpl.
    destruct (String.prefix "y" (lower (strip answer))) eqn:Hy; simpl.
    + unfold run, bind, py_open, f_close, ret. simpl.
      destruct (open_fails (faults w)); simpl.
      * unfold io_bind, py_print, io_ret. simpl. intros [= <- <-]. simpl.
        split_and!; first [done | by intros [? ?]].
      * intros [= <- <-]. simpl.
        split_and!;
          first [ done | by intros [? ?]
                | intros q Hq; by rewrite lookup_insert_ne
                | intros _; rewrite lookup_insert_eq; by eauto ].
    + unfold io_ret. intros [= <- <-]. simpl.
      split_and!; first [done | by intros [? ?]].
Qed.

Lemma add_lines_loop_world (reqs : list RequirementPlus) (msgs lines : list string)
    (c c' : Console) (r : Result LoopEnd) :
  add_lines_loop reqs msgs lines c = (r, c') ->
  files (world c') = files (world c)
  /\ faults (world c') = faults (world c)
  /\ stdout c' = stdout c.
Proof.
  revert reqs msgs. induction lines as [|line lines IH]; intros reqs msgs; simpl.
  - unfold io_ret. by intros [= <- <-].
  - destruct (RequirementPlus_parse line) as [new|e].
    + destruct (add_line reqs line) as [[added|e] reqs'].
      * apply IH.
      * destruct e; unfold io_raise; by intros [= <- <-].
    + destruct e; unfold io_raise, io_bind, run, print_err, io_ret; simpl;
        by intros [= <- <-].
Qed.

Lemma add_lines_loop_rejects (reqs : list RequirementPlus)
    (msgs lines : list string) (c c' : Console)
    (reqs' : list RequirementPlus) (msgs' : list string) :
  add_lines_loop reqs msgs lines c = (Ok (Completed reqs' msgs'), c') ->
  forall l, In l lines -> exists new, RequirementPlus_parse l = Ok new.
Proof.
  revert reqs msgs. induction lines as [|line lines IH]; intros reqs msgs; simpl.
  - by intros _ l [].
  - destruct (RequirementPlus_parse line) as [new|e] eqn:Hparse.
    + destruct (add_line reqs line) as [[added|e] rs].
      * intros Hloop l [<-|Hl]; [eauto|]. by eapply IH.
      * destruct e; unfold io_raise; discriminate.
    + destruct e; unfold io_raise, io_bind, run, print_err, io_ret; simpl;
        discriminate.
Qed.

Lemma add_lines_loop_returns_1 (reqs : list RequirementPlus)
    (msgs lines : list string) (c c' : Console) (code : nat) :
  add_lines_loop reqs msgs lines c = (Ok (Returned code), c') -> code = 1.
Proof.
  revert reqs msgs. induction lines as [|line lines IH]; intros reqs msgs; simpl.
  - unfold io_ret. discriminate.
  - destruct (RequirementPlus_parse line) as [new|e].
    + destruct (add_line reqs line) as [[added|e] rs];
        [apply IH|destruct e; unfold io_raise; discriminate].
    + destruct e; unfold io_raise, io_bind, run, print_err, io_ret; simpl;
        congruence.
Qed.

(** X18.  [add_lines] on an existing file adds all the lines or none: if
    one of the lines is not accepted by the parser, the command does not
    return 0, no file is changed and nothing is printed to stdout, also
    when lines before it were accepted. *)
Theorem add_lines_invalid_line_changes_nothing
    (answer filename content : string) (lines : list string) (bad : string)
    (c c' : Console) (r : Result nat) :
  files (world c) !! filename = Some content ->
  In bad lines ->
  (forall new, RequirementPlus_parse bad <> Ok new) ->
  add_lines answer filename lines c = (r, c') ->
  r <> Ok 0
  /\ files (world c') = files (world c)
  /\ stdout c' = stdout c.
Proof.
  intros Hfile Hbad Hreject. destruct c as [w out]. simpl in Hfile.
  unfold add_lines, io_bind at 1.
  unfold file_ensure_exists, io_bind at 1, run at 1, os_path_exists.
  simpl. rewrite Hfile. unfold io_ret at 1. simpl.
  unfold io_bind at 1, run at 1. simpl.
  rewrite (from_file_existing filename content w Hfile).
  destruct (from_lines (readlines content)) as [reqs|e]; [|by intros [= <- <-]].
  unfold io_bind at 1.
  destruct (add_lines_loop reqs [] lines {| world := w; stdout := out |})
    as [[ended|e] c1] eqn:Hloop.
  - destruct ended as [code|reqs' msgs'].
    + pose proof Hloop as Hloop'.
      apply add_lines_loop_world in Hloop as (Hf & _ & Hout). simpl in *.
      unfold io_ret. intros [= <- <-]. split; [|done].
      intros [= ->]. by apply add_lines_loop_returns_1 in Hloop'.
    + destruct (add_lines_loop_rejects _ _ _ _ _ _ _ Hloop bad Hbad) as [new Hnew].
      by destruct (Hreject new).
  - apply add_lines_loop_world in Hloop as (Hf & _ & Hout). simpl in *.
    by intros [= <- <-].
Qed.

Lemma add_lines_one_line_loop (answer filename content line : string)
    (reqs reqs' : list RequirementPlus) (new : RequirementPlus) (b : bool)
    (c : Console) :
  files (world c) !! filename = Some content ->
  from_lines (readlines content) = Ok reqs ->
  RequirementPlus_parse line = Ok new ->
  add_line reqs line = (Ok b, reqs') ->
  add_lines answer filename [line] c
  = (run (write_or_FatalError reqs' filename) ;;;;
     py_print ((if b then "Added requirement: "
                else "Replaced requirement with: ") +:+ RequirementPlus_str new) ;;;;
     io_ret 0) c.
Proof.
  intros Hfile Hload Hparse Hadd. destruct c as [w out]. simpl in Hfile.
  unfold add_lines, io_bind at 1.
  unfold file_ensure_exists, io_bind at 1, run at 1, os_path_exists.
  simpl. rewrite Hfile. unfold io_ret at 1. simpl.
  unfold io_bind at 1, run at 1. simpl.
  rewrite (from_file_existing filename content w Hfile), Hload.
  unfold io_bind at 1. simpl. rewrite Hparse, Hadd.
  unfold io_ret at 1. by destruct b.
Qed.

(** X19.  Adding one line to an existing file, when nothing is refused:
    the command returns 0, the file holds the collection that [add_line]
    gives for the loaded requirements, sorted by name, one per line, and
    one message is printed that says whether the requirement was added or
    replaced an entry. *)
Theorem add_lines_one_line_commits
    (answer filename content line : string)
    (reqs reqs' : list RequirementPlus) (new : RequirementPlus) (b : bool)
    (c : Console) :
  files (world c) !! filename = Some content ->
  faults (world c) = no_faults ->
  from_lines (readlines content) = Ok reqs ->
  RequirementPlus_parse line = Ok new ->
  add_line reqs line = (Ok b, reqs') ->
  exists c',
    add_lines answer filename [line] c = (Ok 0, c')
    /\ files (world c')
       = <[filename := serialize reqs' +:+ nl]>
           (delete (filename +:+ ".bak") (files (world c)))
    /\ stdout c'
       = stdout c ++ [(if b then "Added requirement: "
                       else "Replaced requirement with: ")
                      +:+ RequirementPlus_str new].
Proof.
  intros Hfile Hfaults Hload Hparse Hadd.
  rewrite (add_lines_one_line_loop answer filename content line reqs reqs' new b c)
    by done.
  destruct (write_no_faults reqs' filename content (world c) Hfile Hfaults)
    as (w' & Hwrite & Hfiles & _).
  unfold io_bind, run, write_or_FatalError. rewrite Hwrite.
  unfold py_print, io_ret. simpl. eauto.
Qed.

(** X20.  Adding one line when the disk is full: the write fails with
    error number 28, for which the message table has no entry, so the
    command raises [AttributeError] where a [FatalError] with a message
    was meant, and prints nothing to stdout. *)
Theorem add_lines_disk_full_raises_AttributeError
    (answer filename content line : string)
    (reqs reqs' : list RequirementPlus) (new : RequirementPlus) (b : bool)
    (c : Console) (k : nat) :
  files (world c) !! filename = Some content ->
  copy2_fails (faults (world c)) = false ->
  open_fails (faults (world c)) = false ->
  write_fails_at (faults (world c)) = Some k -> k < 2 ->
  from_lines (readlines content) = Ok reqs ->
  RequirementPlus_parse line = Ok new ->
  add_line reqs line = (Ok b, reqs') ->
  exists c',
    add_lines answer filename [line] c = (Raise (AttributeError "format"), c')
    /\ stdout c' = stdout c.
Proof.
  intros Hfile Hc Ho Hk Hlt Hload Hparse Hadd.
  rewrite (add_lines_one_line_loop answer filename content line reqs reqs' new b c)
    by done.
  destruct (write_disk_full reqs' filename content (world c) k Hfile Hc Ho Hk Hlt)
    as (w' & Hwrite & _).
  unfold io_bind, run, write_or_FatalError. rewrite Hwrite.
  unfold format_env_err, FILE_ERRS.
  rewrite !lookup_insert_ne by done. rewrite lookup_empty. simpl. eauto.
Qed.

(** X21.  [sort_requirements] on an existing file, when nothing is
    refused: if every line parses, the file is rewritten with the
    requirements sorted by name, one per line, and 0 is returned; if a
    line does not parse, the parser's exception is raised and the world is
    left as it was. *)
Theorem sort_requirements_rewrites_or_leaves
    (filename content : string) (w : World) :
  files w !! filename = Some content ->
  faults w = no_faults ->
  (forall reqs, from_lines (readlines content) = Ok reqs ->
     exists w',
       sort_requirements filename w = (Ok 0, w')
       /\ files w' = <[filename := serialize reqs +:+ nl]>
                       (delete (filename +:+ ".bak") (files w))
       /\ stderr w' = stderr w)
  /\ (forall e, from_lines (readlines content) = Raise e ->
        sort_requirements filename w = (Raise e, w)).
Proof.
  intros Hfile Hfaults. unfold sort_requirements, bind.
  rewrite (from_file_existing filename content w Hfile). split.
  - intros reqs ->.
    destruct (write_no_faults reqs filename content w Hfile Hfaults)
      as (w' & -> & Hfiles & Herr).
    unfold ret. eauto.
  - by intros e ->.
Qed.

Lemma check_loop_count (errors_only spec_only location : bool)
    (reqs : list RequirementPlus) (errs n : nat) (c c' : Console) :
  check_loop errors_only spec_only false location reqs errs c = (Ok n, c') ->
  let failing :=
    length (List.filter
              (fun r => match StatusLine_init r with
                        | Ok sl => error sl
                        | Raise _ => false
                        end) reqs) in
  n = errs + failing
  /\ length (stdout c')
     = length (stdout c) + (if errors_only then failing else length reqs)
  /\ world c' = world c.
Proof.
  cbv zeta. revert errs c.
  induction reqs as [|r reqs IH]; intros errs c; simpl.
  - unfold io_ret. intros [= <- <-].
    destruct errors_only; simpl; split_and!; first [done|lia].
  - destruct (StatusLine_init r) as [sl|e]; [|unfold io_raise; discriminate].
    destruct (error sl) eqn:Herr; simpl.
    + rewrite andb_false_r. unfold io_bind.
      destruct spec_only; unfold py_print; simpl; intros H;
        apply IH in H as (-> & Hout & ->); simpl in *; rewrite Hout, length_app;
        simpl; destruct errors_only; split_and!; first [done|lia].
    + destruct errors_only; simpl.
      * intros H. apply IH in H as (-> & Hout & ->). by split_and!.
      * unfold io_bind.
        destruct spec_only; unfold py_print; simpl; intros H;
          apply IH in H as (-> & Hout & ->); simpl in *; rewrite Hout, length_app;
          simpl; split_and!; first [done|lia].
Qed.

(** X22.  What [check_requirements] returns for a file that is not empty
    is the number of requirements whose status is an error, whatever the
    flags [errors_only], [spec_only] and [location] are; with
    [errors_only] as many lines are printed as are counted, without it one
    line per requirement; nothing in the world changes. *)
Theorem check_requirements_counts_errors
    (filename content : string) (errors_only spec_only location : bool)
    (reqs : list RequirementPlus) (n : nat) (c c' : Console) :
  files (world c) !! filename = Some content ->
  from_lines (readlines content) = Ok reqs ->
  reqs <> [] ->
  check_requirements filename errors_only spec_only false location c
  = (Ok n, c') ->
  let failing :=
    length (List.filter
              (fun r => match StatusLine_init r with
                        | Ok sl => error sl
                        | Raise _ => false
                        end) reqs) in
  n = failing
  /\ length (stdout c')
     = length (stdout c) + (if errors_only then failing else length reqs)
  /\ world c' = world c.
Proof.
  intros Hfile Hload Hne. destruct c as [w out]. simpl in Hfile.
  unfold check_requirements, io_bind at 1, run. simpl.
  rewrite (from_file_existing filename content w Hfile), Hload.
  destruct reqs as [|r reqs]; [done|].
  intros H. by apply check_loop_count in H.
Qed.

Lemma dict_set_values (d : list (RequirementPlus * nat)) (k : RequirementPlus)
    (v : nat) :
  1 <= v -> Forall (fun e => 1 <= e.2) d ->
  Forall (fun e => 1 <= e.2) (dict_set d k v).
Proof.
  intros Hv. induction 1 as [|[k' v'] d Hk' Hd IH]; simpl.
  - by repeat constructor.
  - destruct (same_key k' k); constructor; done.
Qed.

Lemma duplicates_values (self : list RequirementPlus) :
  Forall (fun e => 1 <= e.2) (duplicates self).
Proof.
  unfold duplicates.
  cut (forall ns d,
         (forall n, In n ns -> In n (names self)) ->
         Forall (fun e : RequirementPlus * nat => 1 <= e.2) d ->
         Forall (fun e : RequirementPlus * nat => 1 <= e.2)
           (foldl (fun dupes n =>
              let namecount := count_occ String.string_dec (names self) n in
              if namecount =? 1 then dupes
              else match get_byname self n with
                   | Some r => dict_set dupes r (namecount - 1)
                   | None => dupes
                   end) d ns)).
  { intros H. by apply H. }
  induction ns as [|n ns IH]; intros d Hsub Hd; simpl; [done|].
  apply IH; [intros; apply Hsub; by right|].
  destruct (Nat.eqb_spec (count_occ String.string_dec (names self) n) 1)
    as [H1|H1]; [done|].
  destruct (get_byname self n); [|done].
  apply dict_set_values; [|done].
  assert (Hin : In n (names self)) by (apply Hsub; by left).
  apply (count_occ_In String.string_dec) in Hin. lia.
Qed.

Lemma print_duplicates (d : list (RequirementPlus * nat)) (n : nat) (c : Console) :
  foldr (fun (entry : RequirementPlus * nat) rest =>
           py_print (render_duplicate entry.1 entry.2) ;;;; rest)
        (io_ret n) d c
  = (Ok n, {| world := world c;
              stdout := stdout c
                        ++ map (fun e => render_duplicate e.1 e.2) d |}).
Proof.
  revert c. induction d as [|e d IH]; intros c; simpl.
  - unfold io_ret. by rewrite app_nil_r; destruct c.
  - unfold io_bind, py_print. simpl. rewrite IH. simpl.
    by rewrite <- app_assoc.
Qed.

(** X23.  [list_duplicates] on a file that loads returns 0 exactly when
    the names in the file are pairwise different, and then prints [No
    duplicate requirements found.]; otherwise it prints a heading and one
    line per reported requirement.  Nothing in the world changes. *)
Theorem list_duplicates_status
    (filename content : string) (reqs : list RequirementPlus) (c : Console) :
  files (world c) !! filename = Some content ->
  from_lines (readlines content) = Ok reqs ->
  exists n out,
    list_duplicates filename c
    = (Ok n, {| world := world c; stdout := stdout c ++ out |})
    /\ (n = 0 <-> List.NoDup (names reqs))
    /\ (n = 0 -> out = ["No duplicate requirements found."])
    /\ (n <> 0 -> length out = S (length (duplicates reqs))).
Proof.
  intros Hfile Hload. destruct c as [w cout]. simpl in Hfile.
  unfold list_duplicates, io_bind at 1, run. simpl.
  rewrite (from_file_existing filename content w Hfile), Hload.
  pose proof (duplicates_empty_iff_nil reqs) as Hiff.
  pose proof (duplicates_values reqs) as Hpos.
  destruct (duplicates reqs) as [|[k v] d]; simpl.
  - exists 0, ["No duplicate requirements found."].
    unfold io_bind, py_print, io_ret. simpl.
    split_and!; [done| |done|done]. split; [by intros _; apply Hiff|done].
  - apply Forall_cons in Hpos as [Hv _]. simpl in Hv.
    unfold io_bind at 1, py_print at 1. simpl.
    unfold io_bind at 1, py_print at 1. simpl.
    rewrite print_duplicates. simpl.
    eexists _, (_ :: _ :: _). rewrite <- !app_assoc. simpl.
    split; [done|]. split_and!.
    + split; [lia|]. intros Hnd. by apply Hiff in Hnd.
    + lia.
    + intros _. simpl. by rewrite length_map.
Qed.

(* --------------------------------------------------------------------- *)
(** *** The order of requirements *)
(* --------------------------------------------------------------------- *)

Lemma str_lt_asym (a b : string) : str_lt a b = true -> str_lt b a = false.
Proof. intros H. by apply str_lt_false_leb, str_lt_leb. Qed.

Lemma str_lt_trans (a b c : string) :
  str_lt a b = true -> str_lt b c = true -> str_lt a c = true.
Proof.
  intros Hab Hbc. destruct (str_lt a c) eqn:Hac; [done|].
  apply str_lt_false_leb in Hac.
  pose proof (string_leb_trans _ _ _ Hac (str_lt_leb _ _ Hab)) as Hcb.
  apply str_lt_false_leb in Hcb. congruence.
Qed.

Lemma pair_lt_irrefl (a : string * string) : pair_lt a a = false.
Proof. unfold pair_lt. by rewrite String.eqb_refl, str_lt_irrefl. Qed.

Lemma pair_lt_trans (a b c : string * string) :
  pair_lt a b = true -> pair_lt b c = true -> pair_lt a c = true.
Proof.
  unfold pair_lt.
  destruct (String.eqb_spec a.1 b.1) as [Hab|Hab];
    destruct (String.eqb_spec b.1 c.1) as [Hbc|Hbc].
  - rewrite Hab, Hbc, String.eqb_refl. apply str_lt_trans.
  - rewrite Hab. destruct (String.eqb_spec b.1 c.1); done.
  - rewrite <- Hbc. destruct (String.eqb_spec a.1 b.1); done.
  - intros H1 H2. destruct (String.eqb_spec a.1 c.1) as [Hac|Hac].
    + rewrite <- Hac in H2. apply str_lt_asym in H1. congruence.
    + by eapply str_lt_trans.
Qed.

Lemma list_lt_irrefl (l : list (string * string)) : list_lt l l = false.
Proof. induction l as [|a l IH]; simpl; [done|]. by rewrite decide_True. Qed.

Lemma list_lt_trans (l1 l2 l3 : list (string * string)) :
  list_lt l1 l2 = true -> list_lt l2 l3 = true -> list_lt l1 l3 = true.
Proof.
  revert l2 l3. induction l1 as [|a l1 IH]; intros [|b l2] [|c l3]; simpl;
    try done.
  destruct (decide (a = b)) as [->|Hab]; destruct (decide (b = c)) as [->|Hbc].
  - apply IH.
  - done.
  - rewrite decide_False by done. by intros ? _.
  - intros H1 H2. destruct (decide (a = c)) as [->|Hac].
    + pose proof (pair_lt_trans _ _ _ H1 H2) as H. by rewrite pair_lt_irrefl in H.
    + by eapply pair_lt_trans.
Qed.

(** X24.  [__lt__] is a strict partial order: no requirement is below
    itself, two requirements are never below each other, and the relation
    is transitive.  It is not a total one: it needs both a smaller name
    and a smaller specs list, so requirements of one name are never
    ordered, whatever their specs. *)
Theorem RequirementPlus_lt_strict_order :
  (forall a : Requirement, RequirementPlus_lt a a = false)
  /\ (forall a b : Requirement,
        RequirementPlus_lt a b = true -> RequirementPlus_lt b a = false)
  /\ (forall a b c : Requirement,
        RequirementPlus_lt a b = true -> RequirementPlus_lt b c = true ->
        RequirementPlus_lt a c = true)
  /\ (forall a b : Requirement,
        name a = name b -> RequirementPlus_lt a b = false).
Proof.
  unfold RequirementPlus_lt. split_and!.
  - intros a. by rewrite str_lt_irrefl.
  - intros a b. destruct (str_lt (name a) (name b)) eqn:Hab; [|done].
    intros _. by rewrite (str_lt_asym _ _ Hab).
  - intros a b c.
    destruct (str_lt (name a) (name b)) eqn:Hab; [|done].
    destruct (str_lt (name b) (name c)) eqn:Hbc; [|done]. simpl.
    rewrite (str_lt_trans _ _ _ Hab Hbc). simpl. apply list_lt_trans.
  - intros a b ->. by rewrite str_lt_irrefl.
Qed.

(* --------------------------------------------------------------------- *)
(** *** Writing a file and loading it again *)
(* --------------------------------------------------------------------- *)

(** A text without line feed and without carriage return, followed by a
    line feed, is read as one line. *)
Lemma readlines_line (l rest : string) :
  free_of (ascii_of_nat 10) l = true ->
  free_of (ascii_of_nat 13) l = true ->
  readlines (l +:+ nl +:+ rest) = (l +:+ nl) :: readlines rest.
Proof.
  induction l as [|c l IH]; intros Hlf Hcr; [done|].
  unfold free_of in *. simpl in Hlf, Hcr.
  apply andb_true_iff in Hlf as [Hc10 Hlf].
  apply andb_true_iff in Hcr as [Hc13 Hcr].
  rewrite !string_app_cons. cbn [readlines].
  destruct (Ascii.eqb c (ascii_of_nat 10)); [done|].
  destruct (Ascii.eqb c (ascii_of_nat 13)); [done|].
  by rewrite (IH Hlf Hcr).
Qed.

Lemma readlines_join (ls : list string) :
  ls <> [] ->
  Forall (fun l => free_of (ascii_of_nat 10) l = true
                   /\ free_of (ascii_of_nat 13) l = true) ls ->
  readlines (join nl ls +:+ nl) = map (fun l => l +:+ nl) ls.
Proof.
  induction ls as [|l ls IH]; [done|]. intros _ Hall.
  apply Forall_cons in Hall as [[Hlf Hcr] Hls].
  destruct ls as [|l' ls].
  - simpl join. rewrite <- (string_app_nil_r (l +:+ nl)), string_app_assoc.
    by rewrite readlines_line.
  - change (join nl (l :: l' :: ls)) with (l +:+ nl +:+ join nl (l' :: ls)).
    rewrite !string_app_assoc, readlines_line by done.
    by rewrite IH.
Qed.

Lemma parse_each_map (h : string -> RequirementPlus) (ls : list string) :
  (forall l, In l ls -> RequirementPlus_parse l = Ok (h l)) ->
  (parse_each ls).2 = Ok (map h ls).
Proof.
  induction ls as [|l ls IH]; intros Hall; [done|]. simpl.
  rewrite (Hall l) by by left.
  destruct (parse_each ls) as [calls res]. simpl in *.
  by rewrite IH by (intros; apply Hall; by right).
Qed.

(** X25.  A file that [write] has written loads to the collection that
    was written, if the parser reads each written line back: when the
    collection is not empty, no requirement's text has a line feed or a
    carriage return in it (either would end a line when the file is read)
    and the parser gives each requirement for its line, [from_file] after
    [write] succeeds with a rearrangement of the collection, the cached
    installed versions apart. *)
Theorem write_then_from_file
    (self : list RequirementPlus) (target content : string) (w : World) :
  files w !! target = Some content ->
  faults w = no_faults ->
  self <> [] ->
  (forall r : RequirementPlus, In r self ->
     free_of (ascii_of_nat 10) (RequirementPlus_str r) = true
     /\ free_of (ascii_of_nat 13) (RequirementPlus_str r) = true
     /\ parse (RequirementPlus_str r +:+ nl) = Ok (req r)) ->
  exists w' rs,
    write self target w = (Ok tt, w')
    /\ from_file target w' = (Ok rs, w')
    /\ rs ≡ₚ map (fun r : RequirementPlus => RequirementPlus_init r) self.
Proof.
  intros Hfile Hfaults Hne Hback.
  destruct (write_no_faults self target content w Hfile Hfaults)
    as (w' & Hwrite & Hfiles & _).
  assert (Htarget : files w' !! target = Some (serialize self +:+ nl))
    by by rewrite Hfiles, lookup_insert_eq.
  pose proof (sorted_perm (fun r : RequirementPlus => name r) self) as Hperm.
  fold (sorted_by_name self) in Hperm.
  set (lines := map (fun r : RequirementPlus => RequirementPlus_str r +:+ nl)
                    (sorted_by_name self)).
  assert (Hlines : readlines (serialize self +:+ nl) = lines).
  { unfold serialize. rewrite readlines_join.
    - unfold lines. by rewrite map_map.
    - intros Hnil. apply map_eq_nil in Hnil. rewrite Hnil in Hperm.
      by apply Permutation_nil_l in Hperm.
    - apply Forall_forall. intros l Hl.
      apply list_elem_of_In, in_map_iff in Hl as (r & <- & Hr).
      assert (Hin : In r self).
      { apply list_elem_of_In. rewrite <- Hperm. by apply list_elem_of_In. }
      destruct (Hback r Hin) as (Hlf & Hcr & _). by split. }
  set (h := fun l : string =>
              match RequirementPlus_parse l with
              | Ok r => r
              | Raise _ => RequirementPlus_init (mk_local "")
              end).
  assert (Hh : forall r : RequirementPlus, In r self ->
                 h (RequirementPlus_str r +:+ nl) = RequirementPlus_init r).
  { intros r Hr. unfold h, RequirementPlus_parse.
    by rewrite (proj2 (proj2 (Hback r Hr))). }
  assert (Hparse : forall l, In l (sorted str_lt lines) ->
                     RequirementPlus_parse l = Ok (h l)).
  { intros l Hl.
    pose proof (sorted_perm (fun s : string => s) lines) as Hp.
    change (key_lt (fun s : string => s)) with str_lt in Hp.
    apply list_elem_of_In in Hl. rewrite Hp in Hl.
    apply list_elem_of_In, in_map_iff in Hl as (r & <- & Hr).
    assert (Hin : In r self).
    { apply list_elem_of_In. rewrite <- Hperm. by apply list_elem_of_In. }
    unfold h, RequirementPlus_parse.
    by rewrite (proj2 (proj2 (Hback r Hin))). }
  exists w', (map h (sorted str_lt lines)). split; [done|]. split.
  - rewrite (from_file_existing target _ w' Htarget), Hlines.
    unfold from_lines. by rewrite (parse_each_map h).
  - pose proof (sorted_perm (fun s : string => s) lines) as Hp.
    change (key_lt (fun s : string => s)) with str_lt in Hp.
    rewrite Hp. unfold lines. rewrite map_map, Hperm.
    rewrite (map_ext_in _ (fun r : RequirementPlus => RequirementPlus_init r)
               self); [done|].
    intros r Hr. by apply Hh.
Qed.

(** X26.  Sorting an empty requirements file does not leave it empty: the
    file then holds one empty line, and loading it hands that line to the
    parser, so the file loads only if the parser accepts an empty line. *)
Theorem sort_requirements_of_empty_file (filename : string) (w : World) :
  files w !! filename = Some "" ->
  faults w = no_faults ->
  exists w',
    sort_requirements filename w = (Ok 0, w')
    /\ files w' !! filename = Some nl
    /\ from_file filename w'
       = (match RequirementPlus_parse nl with
          | Ok r => Ok [r]
          | Raise e => Raise e
          end, w').
Proof.
  intros Hfile Hfaults. unfold sort_requirements, bind.
  rewrite (from_file_existing filename "" w Hfile).
  change (from_lines (readlines "")) with (Ok ([] : list RequirementPlus)).
  destruct (write_no_faults [] filename "" w Hfile Hfaults)
    as (w' & -> & Hfiles & _).
  assert (Htarget : files w' !! filename = Some nl)
    by (rewrite Hfiles, lookup_insert_eq; reflexivity).
  exists w'. split; [done|]. split; [done|].
  rewrite (from_file_existing filename nl w' Htarget).
  unfold from_lines.
  change (sorted str_lt (readlines nl)) with [nl]. cbn [parse_each].
  by destruct (RequirementPlus_parse nl).
Qed.

(* --------------------------------------------------------------------- *)
(** *** Status lines *)
(* --------------------------------------------------------------------- *)

Lemma installed_version_req (r r' : RequirementPlus)
    (res : Result (option Requirement)) :
  installed_version r = (res, r') -> req r' = req r.
Proof.
  unfold installed_version.
  destruct (_installed_ver r); [by intros [= _ <-]|].
  destruct (PKGS !! lower (name r)); [|by intros [= _ <-]].
  destruct (parse _); by intros [= _ <-].
Qed.

Lemma satisfied_req (r r' : RequirementPlus) (against : option Against)
    (res : Result bool) :
  satisfied r against = (res, r') -> req r' = req r.
Proof.
  unfold satisfied. destruct against as [a|].
  - destruct a; by intros [= _ <-].
  - destruct (installed_version r) as [[[v|]|e] s] eqn:Hinst;
      apply installed_version_req in Hinst; by intros [= _ <-].
Qed.

(** X27.  In every status line the marker agrees with the error flag: the
    marker is [!] exactly when the line is an error; a line that is no
    error belongs to a requirement whose package is in the table or whose
    installed version was cached before; and the requirement of the line
    is the one it was built for, the cached installed version apart. *)
Theorem StatusLine_marker_agrees_with_error
    (r : RequirementPlus) (sl : StatusLine) :
  StatusLine_init r = Ok sl ->
  (error sl = true <-> errstatus sl = "!")
  /\ (error sl = false ->
      is_Some (PKGS !! lower (name r)) \/ is_Some (_installed_ver r))
  /\ req (status_req sl) = req r.
Proof.
  unfold StatusLine_init.
  destruct (installed_version r) as [[[iv|]|e] r1] eqn:Hinst; [| |done].
  - pose proof (installed_version_req _ _ _ Hinst) as Hreq1.
    destruct (specs iv) as [|[o installverstr] rest]; [done|].
    destruct (satisfied r1 None) as [[[|]|e] r2] eqn:Hsat; [| |done].
    + apply satisfied_req in Hsat. intros [= <-]. simpl. split_and!.
      * split; [done|]. by destruct (bool_decide _).
      * intros _. revert Hinst. unfold installed_version.
        destruct (_installed_ver r) as [v0|]; [right; by eexists|].
        destruct (PKGS !! lower (name r)) as [p|]; [|done].
        intros _. left. by eexists.
      * congruence.
    + apply satisfied_req in Hsat. intros [= <-]. simpl. split_and!;
        [done|done|congruence].
  - pose proof (installed_version_req _ _ _ Hinst) as Hreq1.
    intros [= <-]. simpl. by split_and!.
Qed.

End Engine.

(* ===================================================================== *)
(** ** The engine with the modelled collaborators *)
(* ===================================================================== *)

Lemma lex_compare_refl (r : list N) : lex_compare r r = Eq.
Proof. induction r as [|x r IH]; [done|]. simpl. by rewrite N.compare_refl. Qed.

Lemma version_compare_zero_padded (r : list N) (k : nat) :
  version_compare r (r ++ replicate k 0%N) = Eq.
Proof.
  unfold version_compare, pad_release.
  rewrite length_app, length_replicate.
  replace (length r `max` (length r + k)) with (length r + k) by lia.
  replace (length r + k - length r) with k by lia.
  replace (length r + k - (length r + k)) with 0 by lia.
  simpl. rewrite app_nil_r. apply lex_compare_refl.
Qed.

(** C4.  The comparator's truth table: [1.0.1 >= 1.0.0] holds,
    [2.0.0 <= 1.0.0] does not, and [1.0 == 1.0.0] holds; more generally a
    release and the same release followed by zeros compare equal. *)
Theorem comparator_truth_table :
  compare_versions parse_version version_compare "1.0.1" ">=" "1.0.0" = true
  /\ compare_versions parse_version version_compare "2.0.0" "<=" "1.0.0" = false
  /\ compare_versions parse_version version_compare "1.0" "==" "1.0.0" = true
  /\ forall (r : list N) (k : nat),
       version_compare r (r ++ replicate k 0%N) = Eq.
Proof.
  split; [by vm_compute|]. split; [by vm_compute|]. split; [by vm_compute|].
  apply version_compare_zero_padded.
Qed.

(* ===================================================================== *)
(** ** Round trip through the modelled parser *)
(* ===================================================================== *)

(** *** Blanks at the ends of a string *)

Lemma lstrip_fixed (s : string) : no_lead_space s = true -> lstrip s = s.
Proof. destruct s as [|c s]; [done|]. simpl. by destruct (Ascii.is_space c). Qed.




Lemma string_app_eq_nil (s t : string) : s +:+ t = "" -> s = "" /\ t = "".
Proof. by destruct s. Qed.

Lemma rstrip_app_fixed (s t : string) :
  t <> "" -> rstrip t = t -> rstrip (s +:+ t) = s +:+ t.
Proof.
  intros Ht Hfix. induction s as [|c s IH]; [done|].
  rewrite string_app_cons. simpl. rewrite IH.
  destruct (s +:+ t) eqn:Hst; [|done].
  by apply string_app_eq_nil in Hst as [_ ?].
Qed.



Lemma rstrip_trailing_space (s : string) (c : ascii) :
  Ascii.is_space c = true -> rstrip (s +:+ String c "") = rstrip s.
Proof.
  intros Hc. induction s as [|x s IH].
  - simpl. by rewrite Hc.
  - rewrite string_app_cons. simpl. by rewrite IH.
Qed.


Lemma strip_fixed (s : string) : trimmed s -> strip s = s.
Proof. intros [Hl Hr]. unfold strip. rewrite Hr. by apply lstrip_fixed. Qed.


(** Strings with no blank at all. *)
Lemma no_space_trimmed (s : string) :
  string_forallb (fun c => negb (Ascii.is_space c)) s = true -> trimmed s.
Proof.
  intros H. split.
  - destruct s as [|c s]; [done|]. simpl in *. by destruct (Ascii.is_space c).
  - induction s as [|c s IH]; [done|]. simpl in *.
    apply andb_true_iff in H as [Hc Hs]. rewrite (IH Hs).
    destruct s; [|done]. by destruct (Ascii.is_space c).
Qed.

Lemma strip_space_token (tok : string) :
  tok <> "" -> trimmed tok -> strip (" " +:+ tok) = tok.
Proof.
  intros Hne [Hl Hr]. unfold strip.
  rewrite (rstrip_app_fixed " " tok Hne Hr). simpl. by apply lstrip_fixed.
Qed.

(** *** Bytes of tokens *)

Lemma string_forallb_app (p : ascii -> bool) (s t : string) :
  string_forallb p (s +:+ t) = string_forallb p s && string_forallb p t.
Proof.
  induction s as [|c s IH]; [done|]. rewrite string_app_cons. simpl.
  by rewrite IH, andb_assoc.
Qed.

Lemma string_forallb_impl (p q : ascii -> bool) (s : string) :
  (forall c, p c = true -> q c = true) ->
  string_forallb p s = true -> string_forallb q s = true.
Proof.
  intros Hpq. induction s as [|c s IH]; [done|]. simpl.
  rewrite !andb_true_iff. intros [Hc Hs]. auto.
Qed.

Lemma version_char_not_separator (c : ascii) :
  is_version_char c = true -> is_separator c = false.
Proof.
  destruct c as [[] [] [] [] [] [] [] []]; vm_compute; congruence.
Qed.

Lemma name_char_version_char (c : ascii) :
  is_name_char c = true -> is_version_char c = true.
Proof. unfold is_version_char. by intros ->. Qed.

Lemma name_char_not_separator (c : ascii) :
  is_name_char c = true -> is_separator c = false.
Proof. intros H. by apply version_char_not_separator, name_char_version_char. Qed.

Lemma is_name_chars (s : string) :
  is_name s = true -> string_forallb is_name_char s = true /\ s <> "".
Proof.
  destruct s as [|c s]; [done|]. unfold is_name.
  rewrite andb_true_iff. by intros [_ ?].
Qed.

Lemma is_version_chars (s : string) :
  is_version s = true -> string_forallb is_version_char s = true /\ s <> "".
Proof.
  unfold is_version, nonempty. rewrite andb_true_iff, negb_true_iff.
  intros [Hne ?]. split; [done|]. intros ->. discriminate.
Qed.

Lemma no_separator_free_of (x : ascii) (s : string) :
  is_separator x = true ->
  string_forallb (fun c => negb (is_separator c)) s = true ->
  free_of x s = true.
Proof.
  intros Hx. apply string_forallb_impl. intros c Hc.
  destruct (Ascii.eqb_spec c x) as [->|]; [|done].
  by rewrite Hx in Hc.
Qed.

Lemma no_separator_no_space (s : string) :
  string_forallb (fun c => negb (is_separator c)) s = true ->
  string_forallb (fun c => negb (Ascii.is_space c)) s = true.
Proof.
  apply string_forallb_impl. intros c. unfold is_separator.
  by destruct (Ascii.is_space c).
Qed.

Lemma name_no_separator (s : string) :
  string_forallb is_name_char s = true ->
  string_forallb (fun c => negb (is_separator c)) s = true.
Proof.
  apply string_forallb_impl. intros c Hc.
  by rewrite (name_char_not_separator c Hc).
Qed.

Lemma version_no_separator (s : string) :
  string_forallb is_version_char s = true ->
  string_forallb (fun c => negb (is_separator c)) s = true.
Proof.
  apply string_forallb_impl. intros c Hc.
  by rewrite (version_char_not_separator c Hc).
Qed.

(** *** Splitting and cutting *)

Lemma split_on_free (sep : ascii) (s : string) :
  free_of sep s = true -> split_on sep s = [s].
Proof.
  unfold free_of. induction s as [|c s IH]; [done|]. simpl.
  rewrite andb_true_iff, negb_true_iff. intros [Hc Hs].
  by rewrite Hc, (IH Hs).
Qed.

Lemma split_on_app (sep : ascii) (a b : string) :
  free_of sep a = true ->
  split_on sep (a +:+ String sep b) = a :: split_on sep b.
Proof.
  unfold free_of. induction a as [|c a IH].
  - intros _. simpl. by rewrite Ascii.eqb_refl.
  - simpl. rewrite andb_true_iff, negb_true_iff. intros [Hc Ha].
    rewrite ?string_app_cons. simpl. by rewrite Hc, (IH Ha).
Qed.

Lemma span_app (p : ascii -> bool) (a rest : string) :
  string_forallb p a = true ->
  match rest with String c _ => p c = false | EmptyString => True end ->
  span p (a +:+ rest) = (a, rest).
Proof.
  intros Ha Hrest. induction a as [|c a IH].
  - destruct rest as [|c r]; [done|]. simpl. by rewrite Hrest.
  - simpl in Ha. apply andb_true_iff in Ha as [Hc Ha].
    rewrite ?string_app_cons. simpl. by rewrite Hc, (IH Ha).
Qed.

Lemma span_forallb (p : ascii -> bool) (s a b : string) :
  span p s = (a, b) -> string_forallb p a = true /\ s = a +:+ b.
Proof.
  revert a b. induction s as [|c s IH]; intros a b; simpl.
  - by intros [= <- <-].
  - destruct (p c) eqn:Hc.
    + destruct (span p s) as [a' b']. intros [= <- <-].
      destruct (IH a' b' eq_refl) as [Ha ->]. simpl. by rewrite Hc, Ha.
    + by intros [= <- <-].
Qed.


Lemma cut_at_unfold (sub s : string) :
  cut_at sub s
  = if String.prefix sub s then Some ("", skip (String.length sub) s)
    else match s with
         | EmptyString => None
         | String c s' =>
             match cut_at sub s' with
             | Some (a, b) => Some (String c a, b)
             | None => None
             end
         end.
Proof. by destruct s. Qed.


Lemma prefix_first_byte (x : ascii) (sub s : string) :
  free_of x s = true -> String.prefix (String x sub) s = false.
Proof.
  destruct s as [|c s]; [done|]. unfold free_of. simpl.
  rewrite andb_true_iff, negb_true_iff. intros [Hc _].
  destruct (ascii_dec x c) as [->|]; [|done].
  by rewrite Ascii.eqb_refl in Hc.
Qed.

Lemma cut_at_free (x : ascii) (sub s : string) :
  free_of x s = true -> cut_at (String x sub) s = None.
Proof.
  intros H. induction s as [|c s IH]; [done|].
  rewrite cut_at_unfold, (prefix_first_byte x sub _ H).
  unfold free_of in H. simpl in H. apply andb_true_iff in H as [_ H].
  by rewrite (IH H).
Qed.

Lemma cut_at_byte (x : ascii) (a b : string) :
  free_of x a = true ->
  cut_at (String x "") (a +:+ String x b) = Some (a, b).
Proof.
  intros Ha. induction a as [|c a IH].
  - simpl. destruct (ascii_dec x x); [|done]. by destruct b.
  - unfold free_of in Ha. simpl in Ha.
    apply andb_true_iff in Ha as [Hc Ha]. apply negb_true_iff in Hc.
    rewrite string_app_cons, cut_at_unfold.
    assert (Hp : String.prefix (String x "") (String c (a +:+ String x b)) = false).
    { simpl. destruct (ascii_dec x c) as [->|]; [|done].
      by rewrite Ascii.eqb_refl in Hc. }
    rewrite Hp. by rewrite (IH Ha).
Qed.


(** *** Editable and version-control lines *)








(** *** Standard entries: what the parser returns *)






(** *** Standard entries: reading back what [to_str] writes *)

Lemma free_of_app (x : ascii) (s t : string) :
  free_of x (s +:+ t) = free_of x s && free_of x t.
Proof. apply string_forallb_app. Qed.

Lemma free_of_join (x : ascii) (sep : string) (parts : list string) :
  free_of x sep = true ->
  Forall (fun p => free_of x p = true) parts ->
  free_of x (join sep parts) = true.
Proof.
  intros Hsep. induction 1 as [|p parts Hp Hparts IH]; [done|].
  destruct parts as [|q parts]; [done|].
  change (join sep (p :: q :: parts)) with (p +:+ sep +:+ join sep (q :: parts)).
  by rewrite !free_of_app, Hp, Hsep, IH.
Qed.

Lemma join_token (sep : string) (parts : list string) :
  parts <> [] -> Forall token parts -> token (join sep parts).
Proof.
  intros Hne Hall. induction Hall as [|p parts [Hp [Hpl Hpr]] Hparts IH]; [done|].
  destruct parts as [|q parts]; [done|].
  change (join sep (p :: q :: parts)) with (p +:+ sep +:+ join sep (q :: parts)).
  destruct (IH ltac:(done)) as [Hj [_ Hjr]].
  split; [by destruct p|]. split; [by destruct p|].
  rewrite <- string_app_assoc. by apply rstrip_app_fixed.
Qed.

Lemma strip_padded (p tok : string) :
  p = "" \/ p = " " -> token tok -> strip (p +:+ tok) = tok.
Proof.
  intros [-> | ->] [Hne Htrim].
  - by apply strip_fixed.
  - by apply strip_space_token.
Qed.

Lemma name_token (e : string) : is_name e = true -> token e.
Proof.
  intros H. apply is_name_chars in H as [Hc Hne]. split; [done|].
  by apply no_space_trimmed, no_separator_no_space, name_no_separator.
Qed.

Lemma name_free_of (x : ascii) (e : string) :
  is_separator x = true -> is_name e = true -> free_of x e = true.
Proof.
  intros Hx H. apply is_name_chars in H as [Hc _].
  by apply no_separator_free_of, name_no_separator.
Qed.

Lemma version_token (v : string) : is_version v = true -> token v.
Proof.
  intros H. apply is_version_chars in H as [Hc Hne]. split; [done|].
  by apply no_space_trimmed, no_separator_no_space, version_no_separator.
Qed.

Lemma version_free_of (x : ascii) (v : string) :
  is_separator x = true -> is_version v = true -> free_of x v = true.
Proof.
  intros Hx H. apply is_version_chars in H as [Hc _].
  by apply no_separator_free_of, version_no_separator.
Qed.

Ltac operator_cases H :=
  simpl in H; destruct H as [<-|[<-|[<-|[<-|[<-|[]]]]]].

Lemma spec_text_token (s : string * string) : valid_spec s -> token (spec_text s).
Proof.
  intros [Hop Hver]. destruct (version_token _ Hver) as [Hne [_ Hr]].
  unfold spec_text. split; [|split].
  - operator_cases Hop; done.
  - operator_cases Hop; done.
  - rewrite <- string_app_assoc. by apply rstrip_app_fixed.
Qed.

Lemma spec_text_free_of (x : ascii) (s : string * string) :
  x = ","%char \/ x = "#"%char -> valid_spec s -> free_of x (spec_text s) = true.
Proof.
  intros Hx [Hop Hver]. unfold spec_text.
  rewrite !free_of_app, (version_free_of x _ ltac:(by destruct Hx as [-> | ->]) Hver).
  destruct Hx as [-> | ->]; operator_cases Hop; done.
Qed.

Lemma parse_spec_text (p : string) (s : string * string) :
  p = "" \/ p = " " -> valid_spec s -> parse_spec (p +:+ spec_text s) = Some s.
Proof.
  intros Hp Hs. unfold parse_spec.
  rewrite (strip_padded p _ Hp (spec_text_token s Hs)).
  destruct s as [op ver]. destruct Hs as [Hop Hver]. simpl in Hop, Hver.
  pose proof (version_token _ Hver) as Htok.
  unfold spec_text. simpl fst. simpl snd.
  operator_cases Hop; simpl; rewrite string_app_nil_l;
    by rewrite (strip_padded " " ver (or_intror eq_refl) Htok), Hver.
Qed.

Lemma parse_specs_list_text (p : string) (ss : list (string * string)) :
  p = "" \/ p = " " -> ss <> [] -> Forall valid_spec ss ->
  parse_specs_list (split_on "," (p +:+ join "," (map spec_text ss))) = Some ss.
Proof.
  intros Hp Hne Hall. revert p Hp.
  induction Hall as [|s ss Hs Hss IH]; intros p Hp; [done|].
  assert (Hfree : free_of "," (p +:+ spec_text s) = true).
  { rewrite free_of_app, (spec_text_free_of "," s (or_introl eq_refl) Hs).
    by destruct Hp as [-> | ->]. }
  destruct ss as [|s' ss].
  - simpl. rewrite (split_on_free _ _ Hfree). simpl.
    by rewrite (parse_spec_text p s Hp Hs).
  - change (join "," (map spec_text (s :: s' :: ss)))
      with (spec_text s +:+ String "," (join "," (map spec_text (s' :: ss)))).
    rewrite <- string_app_assoc, (split_on_app _ _ _ Hfree).
    cbn [parse_specs_list]. rewrite (parse_spec_text p s Hp Hs).
    pose proof (IH ltac:(done) "" (or_introl eq_refl)) as IH'.
    rewrite string_app_nil_l in IH'. by rewrite IH'.
Qed.

Lemma specs_text_token (ss : list (string * string)) :
  ss <> [] -> Forall valid_spec ss -> token (join "," (map spec_text ss)).
Proof.
  intros Hne Hall. apply join_token; [by destruct ss|].
  apply Forall_fmap. eapply Forall_impl; [exact Hall|].
  intros s Hs. by apply spec_text_token.
Qed.

Lemma parse_specs_tail (ss : list (string * string)) :
  Forall valid_spec ss -> parse_specs (specs_tail ss) = Some ss.
Proof.
  intros Hall. destruct ss as [|s ss]; [done|].
  unfold parse_specs, specs_tail.
  pose proof (specs_text_token (s :: ss) ltac:(done) Hall) as Htok.
  rewrite (strip_padded " " _ (or_intror eq_refl) Htok).
  destruct (String.eqb_spec (join "," (map spec_text (s :: ss))) "") as [He|_].
  - by destruct Htok.
  - by apply parse_specs_list_text; [right| |].
Qed.

Lemma extras_split (p : string) (es : list string) :
  p = "" \/ p = " " -> es <> [] -> forallb is_name es = true ->
  map strip (split_on "," (p +:+ join ", " es)) = es.
Proof.
  intros Hp Hne Hall. revert p Hp.
  induction es as [|e es IH]; intros p Hp; [done|].
  simpl in Hall. apply andb_true_iff in Hall as [He Hes].
  assert (Hfree : free_of "," (p +:+ e) = true).
  { rewrite free_of_app, (name_free_of "," e eq_refl He).
    by destruct Hp as [-> | ->]. }
  destruct es as [|e' es].
  - simpl. rewrite (split_on_free _ _ Hfree). simpl.
    by rewrite (strip_padded p e Hp (name_token e He)).
  - change (join ", " (e :: e' :: es))
      with (e +:+ String "," (" " +:+ join ", " (e' :: es))).
    rewrite <- string_app_assoc, (split_on_app _ _ _ Hfree).
    cbn [map]. rewrite (strip_padded p e Hp (name_token e He)).
    by rewrite (IH ltac:(done) Hes " " (or_intror eq_refl)).
Qed.

Lemma extras_token (es : list string) :
  es <> [] -> forallb is_name es = true -> token (join ", " es).
Proof.
  intros Hne Hall. apply join_token; [done|].
  apply Forall_forall. intros e He. apply name_token.
  rewrite forallb_forall in Hall. by apply Hall, list_elem_of_In.
Qed.

Lemma parse_extras_text (es : list string) :
  es <> [] -> forallb is_name es = true ->
  parse_extras (join ", " es) = Some es.
Proof.
  intros Hne Hall. unfold parse_extras.
  pose proof (extras_token es Hne Hall) as [Hj Htrim].
  rewrite (strip_fixed _ Htrim).
  destruct (String.eqb_spec (join ", " es) "") as [He|_]; [done|].
  pose proof (extras_split "" es (or_introl eq_refl) Hne Hall) as Hsplit.
  rewrite string_app_nil_l in Hsplit. by rewrite Hsplit, Hall.
Qed.

Lemma to_str_registry (n : string) (es : list string) (ss : list (string * string)) :
  RequirementPlus_str (mk_registry n es ss)
  = n +:+ extras_text es +:+ " " +:+ join "," (map spec_text ss).
Proof.
  unfold RequirementPlus_str, to_str, ljust, spec_string, extras_text. simpl.
  rewrite string_app_nil_r. by destruct es.
Qed.

Lemma extras_text_free_of (x : ascii) (es : list string) :
  x = "#"%char -> forallb is_name es = true -> free_of x (extras_text es) = true.
Proof.
  intros -> Hall. destruct es as [|e es]; [done|]. unfold extras_text.
  rewrite !free_of_app, free_of_join; [done|done|].
  apply Forall_forall. intros e' He'.
  apply name_free_of; [done|]. rewrite forallb_forall in Hall.
  by apply Hall, list_elem_of_In.
Qed.

Lemma specs_tail_free_of (x : ascii) (ss : list (string * string)) :
  x = "#"%char -> Forall valid_spec ss -> free_of x (specs_tail ss) = true.
Proof.
  intros -> Hall. destruct ss as [|s ss]; [done|]. unfold specs_tail.
  rewrite free_of_app, free_of_join; [done|done|].
  apply Forall_fmap. eapply Forall_impl; [exact Hall|].
  intros s' Hs'. by apply spec_text_free_of; [right|].
Qed.

Lemma name_extras_token (n : string) (es : list string) :
  is_name n = true -> token (n +:+ extras_text es).
Proof.
  intros Hn. destruct (name_token n Hn) as [Hne [Hl Hr]].
  split; [by destruct n|]. split; [by destruct n|].
  destruct es as [|e es]; [by rewrite string_app_nil_r|].
  unfold extras_text. rewrite <- !string_app_assoc.
  by apply rstrip_app_fixed.
Qed.

Lemma strip_to_str_registry (n : string) (es : list string)
    (ss : list (string * string)) :
  wf_registry n es ss ->
  strip (RequirementPlus_str (mk_registry n es ss)) = registry_text n es ss.
Proof.
  intros (Hn & Hes & Hss). rewrite to_str_registry. unfold registry_text.
  destruct (name_extras_token n es Hn) as [Hne [Hl Hr]].
  assert (Hlead : forall t, no_lead_space ((n +:+ extras_text es) +:+ t) = true).
  { intros t. destruct (n +:+ extras_text es); [done|]. exact Hl. }
  rewrite <- !string_app_assoc. unfold strip.
  destruct ss as [|s ss].
  - simpl. rewrite !string_app_nil_r, rstrip_trailing_space by done.
    rewrite Hr. by apply lstrip_fixed.
  - destruct (specs_text_token (s :: ss) ltac:(done) Hss) as [Hj [_ Hjr]].
    unfold specs_tail. rewrite <- !string_app_assoc.
    rewrite rstrip_app_fixed by done. apply lstrip_fixed.
    rewrite !string_app_assoc, <- (string_app_assoc n). apply Hlead.
Qed.

Lemma registry_text_not_editable (n : string) (es : list string)
    (ss : list (string * string)) :
  is_name n = true -> String.prefix "-e " (registry_text n es ss) = false.
Proof.
  unfold registry_text. destruct n as [|c n]; [done|]. unfold is_name.
  rewrite andb_true_iff. intros [Hc _]. rewrite string_app_cons.
  assert (Hne : c <> "-"%char) by (intros ->; by vm_compute in Hc).
  cbn [String.prefix]. by destruct (ascii_dec "-" c).
Qed.

Lemma registry_text_not_vcs (n : string) (es : list string)
    (ss : list (string * string)) :
  wf_registry n es ss -> parse_vcs (registry_text n es ss) = None.
Proof.
  intros (Hn & Hes & Hss). unfold parse_vcs.
  rewrite (cut_at_free "#"); [done|]. unfold registry_text.
  rewrite !free_of_app, (name_free_of "#" n eq_refl Hn).
  by rewrite (extras_text_free_of "#" es eq_refl Hes),
             (specs_tail_free_of "#" ss eq_refl Hss).
Qed.

Lemma parse_standard_registry_text (n : string) (es : list string)
    (ss : list (string * string)) :
  wf_registry n es ss ->
  parse_standard (registry_text n es ss) = Some (mk_registry n es ss).
Proof.
  intros (Hn & Hes & Hss). unfold parse_standard, registry_text.
  destruct (is_name_chars n Hn) as [Hchars _].
  rewrite (span_app is_name_char n (extras_text es +:+ specs_tail ss) Hchars).
  - rewrite Hn. destruct es as [|e es].
    + rewrite string_app_nil_l, (parse_specs_tail ss Hss).
      by destruct ss.
    + unfold extras_text. rewrite !string_app_assoc.
      change ("[" +:+ join ", " (e :: es) +:+ "]" +:+ specs_tail ss)
        with (String "[" (join ", " (e :: es) +:+ String "]" (specs_tail ss))).
      cbv beta iota. rewrite cut_at_byte.
      * by rewrite (parse_extras_text (e :: es) ltac:(done) Hes),
                   (parse_specs_tail ss Hss).
      * apply free_of_join; [done|]. apply Forall_forall. intros e' He'.
        apply name_free_of; [done|]. rewrite forallb_forall in Hes.
        by apply Hes, list_elem_of_In.
  - destruct es as [|e es]; [|done]. by destruct ss.
Qed.

Lemma parse_line_registry (n : string) (es : list string)
    (ss : list (string * string)) :
  wf_registry n es ss ->
  parse_line (RequirementPlus_str (mk_registry n es ss))
  = Ok (mk_registry n es ss).
Proof.
  intros Hwf. unfold parse_line. rewrite (strip_to_str_registry n es ss Hwf).
  rewrite (registry_text_not_editable n es ss) by apply Hwf.
  by rewrite (registry_text_not_vcs n es ss Hwf),
             (parse_standard_registry_text n es ss Hwf).
Qed.

(** The line [installed_version] builds for an installed package parses
    to the single spec [== version]. *)
Lemma installed_line_parses (n v : string) :
  is_name n = true -> is_version v = true ->
  parse_line (join " " [n; "=="; v]) = Ok (mk_registry n [] [("==", v)]).
Proof.
  intros Hn Hv. rewrite <- (parse_line_registry n [] [("==", v)]).
  - by rewrite to_str_registry.
  - split; [done|]. split; [done|]. constructor; [|constructor].
    split; [|done]. simpl. auto.
Qed.




(* --------------------------------------------------------------------- *)
(** *** Instances of the theorems that have hypotheses *)
(* --------------------------------------------------------------------- *)

Lemma compare_versions_unknown_operator_witness :
  compare_versions parse_version version_compare "0.9" "~=" "1.0"
  = compare_versions parse_version version_compare "0.9" ">=" "1.0"
  /\ compare_versions parse_version version_compare "0.9" "~=" "1.0"
     = version_ge parse_version version_compare "0.9" "1.0".
Proof.
  apply compare_versions_unknown_operator.
  apply (bool_decide_unpack _). vm_compute. exact I.
Defined.

Lemma satisfied_iff_some_spec_matches_witness :
  exists (b : bool) (self' : RequirementPlus) (sl : StatusLine),
    satisfied parse_version version_compare parse_line foo_installed
      (RequirementPlus_init (mk_registry "Foo" [] [(">=", "1.0"); ("<", "0.5")]))
      None = (Ok b, self')
    /\ (b = true <->
        exists op ver,
          In (op, ver) [(">=", "1.0"); ("<", "0.5")]
          /\ compare_versions parse_version version_compare "1.2" op ver = true)
    /\ StatusLine_init parse_version version_compare parse_line foo_installed
         (RequirementPlus_init (mk_registry "Foo" [] [(">=", "1.0"); ("<", "0.5")]))
       = Ok sl
    /\ error sl = negb b.
Proof.
  apply (satisfied_iff_some_spec_matches parse_version version_compare
           parse_line foo_installed
           (RequirementPlus_init (mk_registry "Foo" [] [(">=", "1.0"); ("<", "0.5")]))
           (mk_registry "Foo" [] [("==", "1.2")]) "1.2").
  - vm_compute. reflexivity.
  - reflexivity.
Defined.

Lemma equal_requirements_with_different_hashes_witness :
  exists r1 r2 : Requirement,
    name r1 = "foo" /\ name r2 = "bar"
    /\ name r1 <> name r2
    /\ specs r1 = specs r2
    /\ RequirementPlus_eq r1 r2 = true
    /\ RequirementPlus_hash bytes_hash r1 <> RequirementPlus_hash bytes_hash r2.
Proof.
  apply (equal_requirements_with_different_hashes bytes_hash "foo" "bar").
  vm_compute. discriminate.
Defined.

Lemma add_line_first_entry_of_that_name_witness :
  add_line parse_line [bar_any; foo_eq_1] "Foo == 2"
  = (Ok false,
     [bar_any; RequirementPlus_init (mk_registry "Foo" [] [("==", "2")])]).
Proof.
  destruct (add_line_first_entry_of_that_name parse_line
              [bar_any; foo_eq_1] "Foo == 2"
              (RequirementPlus_init (mk_registry "Foo" [] [("==", "2")]))
              eq_refl) as [Hfirst _].
  destruct (Hfirst 1 foo_eq_1 eq_refl eq_refl) as [_ Hreplace].
  - intros j e' Hj Hl. destruct j as [|j]; [|lia].
    injection Hl as <-. reflexivity.
  - apply Hreplace. vm_compute. reflexivity.
Defined.

Lemma from_file_parses_every_line_witness :
  (exists rest,
      sorted str_lt (readlines commented_file)
      = from_lines_parser_calls parse_line (readlines commented_file) ++ rest)
  /\ hd_error (from_lines_parser_calls parse_line (readlines commented_file))
     = hd_error (sorted str_lt (readlines commented_file))
  /\ (forall rs,
        (from_file parse_line "requirements.txt"
           (one_file_world commented_file no_faults)).1 = Ok rs ->
        from_lines_parser_calls parse_line (readlines commented_file)
        = sorted str_lt (readlines commented_file)
        /\ (forall l, In l (readlines commented_file) ->
                      In l (from_lines_parser_calls parse_line
                              (readlines commented_file)))
        /\ Forall2 (fun l r => RequirementPlus_parse parse_line l = Ok r)
                   (sorted str_lt (readlines commented_file)) rs
        /\ length rs = length (readlines commented_file))
  /\ (forall e,
        (from_file parse_line "requirements.txt"
           (one_file_world commented_file no_faults)).1 = Raise e ->
        exists before l,
          from_lines_parser_calls parse_line (readlines commented_file)
          = before ++ [l]
          /\ RequirementPlus_parse parse_line l = Raise e
          /\ Forall (fun l' => exists r,
                                 RequirementPlus_parse parse_line l' = Ok r)
                    before).
Proof.
  apply (from_file_parses_every_line parse_line "requirements.txt"
           commented_file (one_file_world commented_file no_faults)).
  vm_compute. reflexivity.
Defined.

Lemma failed_write_retains_backup_witness :
  files (write [foo_eq_1; bar_any] "requirements.txt"
           (one_file_world two_lines first_write_fails)).2
    !! "requirements.txt.bak" = Some two_lines
  /\ (open_fails first_write_fails = false ->
      files (write [foo_eq_1; bar_any] "requirements.txt"
               (one_file_world two_lines first_write_fails)).2
        !! "requirements.txt" = Some ""
      \/ files (write [foo_eq_1; bar_any] "requirements.txt"
                  (one_file_world two_lines first_write_fails)).2
           !! "requirements.txt" = Some (serialize [foo_eq_1; bar_any])
      \/ files (write [foo_eq_1; bar_any] "requirements.txt"
                  (one_file_world two_lines first_write_fails)).2
           !! "requirements.txt" = Some (serialize [foo_eq_1; bar_any] +:+ nl)).
Proof.
  apply (failed_write_retains_backup [foo_eq_1; bar_any] "requirements.txt"
           two_lines (one_file_world two_lines first_write_fails)
           (write [foo_eq_1; bar_any] "requirements.txt"
              (one_file_world two_lines first_write_fails)).2
           (EnvironmentError 28 "requirements.txt")).
  - vm_compute. reflexivity.
  - reflexivity.
  - vm_compute. reflexivity.
Defined.

Lemma write_new_file_raises_AttributeError_witness :
  exists w',
    write [foo_eq_1; bar_any] "requirements.txt" empty_world
    = (Raise (AttributeError "backed_up"), w')
    /\ files w' !! "requirements.txt" = Some (serialize [foo_eq_1; bar_any] +:+ nl)
    /\ files w' !! "requirements.txt.bak" = None.
Proof.
  apply (write_new_file_raises_AttributeError [foo_eq_1; bar_any]
           "requirements.txt" empty_world); reflexivity.
Defined.


(* --------------------------------------------------------------------- *)
(** *** Where the code differs from a statement of the specification *)
(* --------------------------------------------------------------------- *)

(** C1.  The first [f.write] fails after the backup was made: the target,
    which held two lines, is empty afterwards, and the backup holds the
    two lines. *)
Lemma failed_write_truncates_target :
  files (one_file_world two_lines first_write_fails) !! "requirements.txt"
  = Some two_lines
  /\ (write [foo_eq_1; bar_any] "requirements.txt"
        (one_file_world two_lines first_write_fails)).1
     = Raise (EnvironmentError 28 "requirements.txt")
  /\ files (write [foo_eq_1; bar_any] "requirements.txt"
              (one_file_world two_lines first_write_fails)).2
       !! "requirements.txt" = Some ""
  /\ two_lines <> ""
  /\ files (write [foo_eq_1; bar_any] "requirements.txt"
              (one_file_world two_lines first_write_fails)).2
       !! "requirements.txt.bak" = Some two_lines.
Proof. repeat split; try (vm_compute; reflexivity). discriminate. Qed.

(** C2.  The collection holds [foo == 1] and [foo == 2], and [foo == 2] is
    added: an entry of that name with equal specs exists, yet no error is
    raised; the first entry of that name is replaced and the collection
    changes. *)
Lemma add_line_replaces_despite_equal_later_entry :
  In foo_eq_2 [foo_eq_1; foo_eq_2]
  /\ RequirementPlus_parse parse_line "foo == 2" = Ok foo_eq_2
  /\ same_name foo_eq_2 foo_eq_2 = true
  /\ RequirementPlus_eq foo_eq_2 foo_eq_2 = true
  /\ add_line parse_line [foo_eq_1; foo_eq_2] "foo == 2"
     = (Ok false, [foo_eq_2; foo_eq_2]).
Proof. repeat split; try (vm_compute; reflexivity). simpl. auto. Qed.

(** C7.  Two entries of one name, the second with the smaller specs, and
    an entry with specs before one of the same name without: sorting by
    name leaves both pairs as they are.  ([__lt__] would not order them
    either: it is false whenever the names are equal.) *)
Lemma sorted_by_name_ignores_specs :
  name foo_ge_2 = name foo_eq_1
  /\ list_lt (specs foo_eq_1) (specs foo_ge_2) = true
  /\ sorted_by_name [foo_ge_2; foo_eq_1] = [foo_ge_2; foo_eq_1]
  /\ name foo_eq_1 = name foo_any
  /\ specs foo_any = []
  /\ list_lt (specs foo_any) (specs foo_eq_1) = true
  /\ sorted_by_name [foo_eq_1; foo_any] = [foo_eq_1; foo_any]
  /\ RequirementPlus_lt foo_eq_1 foo_ge_2 = false
  /\ RequirementPlus_lt foo_any foo_eq_1 = false.
Proof. repeat split; vm_compute; reflexivity. Qed.


(** C9.  A file with a comment line, and one with a blank line: whatever
    the parser, the first line it is called on is the comment line, or the
    blank line; and with a parser that refuses such lines the file does not
    load. *)
Lemma comment_and_blank_lines_reach_the_parser :
  (forall parse,
      hd_error (from_lines_parser_calls parse (readlines commented_file))
      = Some ("# pinned" +:+ nl))
  /\ (forall parse,
         hd_error (from_lines_parser_calls parse (readlines blank_line_file))
         = Some nl)
  /\ is_Ok (from_file parse_line "requirements.txt"
              (one_file_world commented_file no_faults)).1 = false
  /\ is_Ok (from_file parse_line "requirements.txt"
              (one_file_world blank_line_file no_faults)).1 = false.
Proof.
  split; [|split; [|split; vm_compute; reflexivity]].
  - intros parse. unfold from_lines_parser_calls.
    replace (sorted str_lt (readlines commented_file))
      with ["# pinned" +:+ nl; "foo == 1" +:+ nl] by (vm_compute; reflexivity).
    apply parse_each_first_call.
  - intros parse. unfold from_lines_parser_calls.
    replace (sorted str_lt (readlines blank_line_file))
      with [nl; "foo == 1" +:+ nl] by (vm_compute; reflexivity).
    apply parse_each_first_call.
Qed.

(* --------------------------------------------------------------------- *)
(** *** The package table *)
(* --------------------------------------------------------------------- *)

Lemma ascii_lower_idempotent (c : ascii) :
  ascii_lower (ascii_lower c) = ascii_lower c.
Proof. by destruct c as [[] [] [] [] [] [] [] []]. Qed.

Lemma lower_idempotent (s : string) : lower (lower s) = lower s.
Proof.
  induction s as [|c s IH]; [done|]. simpl.
  by rewrite ascii_lower_idempotent, IH.
Qed.

Lemma load_packages_fold (dists : list Package) (acc : gmap string Package)
    (k : string) :
  foldl (fun pkgs p => <[lower (project_name p) := p]> pkgs) acc dists !! k
  = match last (filter (fun p => lower (project_name p) = k) dists) with
    | Some p => Some p
    | None => acc !! k
    end.
Proof.
  revert acc. induction dists as [|p dists IH]; intros acc; [done|].
  simpl. rewrite IH, filter_cons.
  destruct (decide (lower (project_name p) = k)) as [Hk|Hk].
  - rewrite last_cons.
    destruct (last (filter (fun p0 => lower (project_name p0) = k) dists));
      [done|].
    by rewrite <- Hk, lookup_insert_eq.
  - destruct (last (filter (fun p0 => lower (project_name p0) = k) dists));
      [done|].
    by rewrite lookup_insert_ne.
Qed.

Lemma load_packages_keys_lower (exn_text : exn -> string)
    (dists : list Package) (pkgs : gmap string Package) (k : string) :
  load_packages exn_text (Ok dists) = Ok pkgs ->
  is_Some (pkgs !! k) -> lower k = k.
Proof.
  intros [= <-]. rewrite load_packages_fold.
  destruct (last (filter (fun p => lower (project_name p) = k) dists))
    as [p|] eqn:Hlast.
  - intros _. apply last_Some_elem_of in Hlast.
    apply list_elem_of_filter in Hlast as [<- _]. apply lower_idempotent.
  - rewrite lookup_empty. by intros [? ?].
Qed.

(** X28.  The package table that [load_packages] builds has one entry per
    lowercased project name, and it is the last distribution of that name
    that pip returned.  [pkg_installed_version] finds it under any
    spelling of the name, and gives [None] exactly when no distribution
    has that name. *)
Theorem load_packages_last_distribution_wins
    (exn_text : exn -> string) (dists : list Package) :
  exists pkgs,
    load_packages exn_text (Ok dists) = Ok pkgs
    /\ forall n : string,
         pkgs !! lower n
         = last (filter (fun p => lower (project_name p) = lower n) dists)
         /\ pkg_installed_version pkgs n
            = base_version
                <$> last (filter (fun p => lower (project_name p) = lower n)
                                 dists).
Proof.
  eexists. split; [done|]. intros n.
  unfold pkg_installed_version. rewrite load_packages_fold, lookup_empty.
  by destruct (last (filter (fun p => lower (project_name p) = lower n) dists)).
Qed.

(** X29.  The status line looks the package up for its location under the
    requirement's name as written, while the table is keyed by lowercased
    names: a requirement whose name has an uppercase letter gets no
    location, whether its package is installed or not. *)
Theorem mixed_case_requirement_has_no_location
    (exn_text : exn -> string) (dists : list Package)
    (pkgs : gmap string Package) (r : RequirementPlus) :
  load_packages exn_text (Ok dists) = Ok pkgs ->
  lower (name r) <> name r ->
  StatusLine_pkg_location pkgs r = None.
Proof.
  intros Hload Hname. unfold StatusLine_pkg_location.
  destruct (pkgs !! name r) as [p|] eqn:Hp; [|done].
  destruct Hname. eapply load_packages_keys_lower; [exact Hload|by eexists].
Qed.

(** X30.  The installed version is cached on the requirement when it is
    found, and only then.  After a call that found it, a later call gives
    the same answer whatever the package table holds by then; after a
    call that found nothing, the requirement is as it was, so a later
    call asks the table again. *)
Theorem installed_version_caches_hits_only
    (parse : string -> Result Requirement) (PKGS : gmap string Package)
    (r r' : RequirementPlus) :
  (forall v, installed_version parse PKGS r = (Ok (Some v), r') ->
     forall PKGS', installed_version parse PKGS' r' = (Ok (Some v), r'))
  /\ (installed_version parse PKGS r = (Ok None, r') ->
      r' = r /\ _installed_ver r' = None).
Proof.
  unfold installed_version. split.
  - intros v. destruct (_installed_ver r) as [v0|] eqn:Hcache.
    + intros [= <- <-] PKGS'. by rewrite Hcache.
    + destruct (PKGS !! lower (name r)) as [p|]; [|done].
      destruct (parse _) as [v1|e]; [|done]. by intros [= <- <-] PKGS'.
  - destruct (_installed_ver r) as [v0|] eqn:Hcache; [done|].
    destruct (PKGS !! lower (name r)) as [p|].
    + by destruct (parse _).
    + by intros [= <-].
Qed.

(* --------------------------------------------------------------------- *)
(** *** Instances of the further theorems that have hypotheses *)
(* --------------------------------------------------------------------- *)

Lemma add_line_raise_keeps_collection_witness :
  (add_line parse_line [foo_eq_1] "foo == 1").2 = [foo_eq_1].
Proof.
  apply (add_line_raise_keeps_collection parse_line [foo_eq_1]
           (add_line parse_line [foo_eq_1] "foo == 1").2 "foo == 1"
           (ValueError "Already a requirement: foo == 1")).
  vm_compute. reflexivity.
Defined.

Lemma get_byname_after_add_line_witness :
  get_byname (add_line parse_line [bar_any; foo_eq_1] "Foo == 2").2 "Foo"
  = Some (RequirementPlus_init (mk_registry "Foo" [] [("==", "2")])).
Proof.
  apply (get_byname_after_add_line parse_line [bar_any; foo_eq_1]
           (add_line parse_line [bar_any; foo_eq_1] "Foo == 2").2 "Foo == 2"
           (RequirementPlus_init (mk_registry "Foo" [] [("==", "2")])) false).
  - vm_compute. reflexivity.
  - vm_compute. reflexivity.
Defined.

Lemma add_line_keeps_names_unique_witness :
  NoDup (map (fun r : RequirementPlus => lower (name r))
             (add_line parse_line [bar_any; foo_eq_1] "Baz >= 1").2)
  /\ length (add_line parse_line [bar_any; foo_eq_1] "Baz >= 1").2 = 3
  /\ (true = false ->
      map (fun r : RequirementPlus => lower (name r))
          (add_line parse_line [bar_any; foo_eq_1] "Baz >= 1").2
      = map (fun r : RequirementPlus => lower (name r)) [bar_any; foo_eq_1]).
Proof.
  apply (add_line_keeps_names_unique parse_line [bar_any; foo_eq_1]
           (add_line parse_line [bar_any; foo_eq_1] "Baz >= 1").2
           "Baz >= 1" true).
  - apply (bool_decide_unpack _). vm_compute. exact I.
  - vm_compute. reflexivity.
Defined.

Lemma from_lines_order_independent_witness :
  from_lines parse_line ["foo == 1"; "bar"]
  = from_lines parse_line ["bar"; "foo == 1"]
  /\ from_lines_parser_calls parse_line ["foo == 1"; "bar"]
     = from_lines_parser_calls parse_line ["bar"; "foo == 1"].
Proof.
  apply (from_lines_order_independent parse_line
           ["foo == 1"; "bar"] ["bar"; "foo == 1"]).
  apply Permutation_swap.
Defined.

Lemma not_installed_is_not_satisfied_witness :
  satisfied parse_version version_compare parse_line foo_installed bar_any None
  = (Ok false, bar_any)
  /\ StatusLine_init parse_version version_compare parse_line foo_installed
       bar_any
     = Ok {| status_req := bar_any; error := true; errstatus := "!" |}.
Proof.
  apply (not_installed_is_not_satisfied parse_version version_compare
           parse_line foo_installed bar_any).
  - reflexivity.
  - vm_compute. reflexivity.
Defined.

Lemma bare_requirement_is_never_satisfied_witness :
  exists sl,
    StatusLine_init parse_version version_compare parse_line foo_installed
      foo_any = Ok sl
    /\ error sl = true.
Proof.
  destruct (bare_requirement_is_never_satisfied parse_version version_compare
              parse_line foo_installed foo_any
              (satisfied parse_version version_compare parse_line
                 foo_installed foo_any None).2
              None false) as [_ Hstatus].
  - reflexivity.
  - vm_compute. reflexivity.
  - eexists. split; [vm_compute; reflexivity|].
    apply Hstatus. vm_compute. reflexivity.
Defined.

Lemma format_env_err_unknown_errno_witness :
  format_env_err "requirements.txt" (Some 28) "No space left on device"
    "Failed to write file"
  = Raise (AttributeError "format").
Proof.
  apply (format_env_err_unknown_errno "requirements.txt"
           "No space left on device" "Failed to write file" 28).
  - discriminate.
  - discriminate.
Defined.

Lemma failed_write_reports_backup_witness :
  exists w',
    write [foo_eq_1; bar_any] "requirements.txt"
      (one_file_world two_lines first_write_fails)
    = (Raise (EnvironmentError 28 "requirements.txt"), w')
    /\ stderr w'
       = stderr (one_file_world two_lines first_write_fails)
         ++ ["A backup file was saved: " +:+ "requirements.txt" +:+ ".bak"].
Proof.
  apply (failed_write_reports_backup [foo_eq_1; bar_any] "requirements.txt"
           two_lines (one_file_world two_lines first_write_fails) 0).
  - vm_compute. reflexivity.
  - reflexivity.
  - reflexivity.
  - reflexivity.
  - lia.
Defined.

Lemma failed_write_of_new_file_witness :
  exists w',
    write [foo_eq_1; bar_any] "requirements.txt"
      {| files := ∅; faults := first_write_fails; writes_done := 0;
         stderr := [] |}
    = (Raise (EnvironmentError 28 "requirements.txt"), w')
    /\ stderr w' = [] ++ ["No backup was saved!"]
    /\ files w' !! "requirements.txt" = Some ""
    /\ files w' !! ("requirements.txt" +:+ ".bak")
       = (∅ : gmap string string) !! ("requirements.txt" +:+ ".bak").
Proof.
  apply (failed_write_of_new_file [foo_eq_1; bar_any] "requirements.txt"
           {| files := ∅; faults := first_write_fails; writes_done := 0;
              stderr := [] |} 0).
  - reflexivity.
  - reflexivity.
  - reflexivity.
  - lia.
Defined.

Lemma write_refused_before_writing_witness :
  write [foo_eq_1; bar_any] "requirements.txt"
    (one_file_world two_lines copy_refused)
  = (Raise (FatalError (nl +:+ "Invalid permissions for file: "
                        +:+ "requirements.txt")),
     one_file_world two_lines copy_refused)
  /\ exists w',
       write [foo_eq_1; bar_any] "requirements.txt"
         (one_file_world two_lines open_refused)
       = (Raise (EnvironmentError INVALID_PERMISSIONS "requirements.txt"), w')
       /\ files w' = <["requirements.txt" +:+ ".bak" := two_lines]>
                       (files (one_file_world two_lines open_refused))
       /\ files w' !! "requirements.txt" = Some two_lines
       /\ stderr w' = stderr (one_file_world two_lines open_refused).
Proof.
  split.
  - apply (write_refused_before_writing [foo_eq_1; bar_any] "requirements.txt"
             two_lines (one_file_world two_lines copy_refused)).
    + vm_compute. reflexivity.
    + reflexivity.
  - apply (write_refused_before_writing [foo_eq_1; bar_any] "requirements.txt"
             two_lines (one_file_world two_lines open_refused)).
    + vm_compute. reflexivity.
    + reflexivity.
    + reflexivity.
Defined.

Lemma write_commit_changes_target_only_witness :
  exists w',
    write [foo_eq_1; bar_any] "requirements.txt"
      (one_file_world two_lines no_faults) = (Ok tt, w')
    /\ files w' = <["requirements.txt" := serialize [foo_eq_1; bar_any] +:+ nl]>
                    (delete ("requirements.txt" +:+ ".bak")
                       (files (one_file_world two_lines no_faults)))
    /\ stderr w' = stderr (one_file_world two_lines no_faults).
Proof.
  apply (write_commit_changes_target_only [foo_eq_1; bar_any]
           "requirements.txt" two_lines (one_file_world two_lines no_faults)).
  - vm_compute. reflexivity.
  - reflexivity.
Defined.

Lemma write_backup_removal_refused_witness :
  exists w',
    write [foo_eq_1; bar_any] "requirements.txt"
      (one_file_world two_lines
         {| copy2_fails := false; open_fails := false;
            write_fails_at := None; remove_fails := true |})
    = (Raise (FatalError (nl +:+ "Invalid permissions for file: "
                          +:+ "requirements.txt" +:+ ".bak")), w')
    /\ files w' !! "requirements.txt"
       = Some (serialize [foo_eq_1; bar_any] +:+ nl)
    /\ files w' !! ("requirements.txt" +:+ ".bak") = Some two_lines.
Proof.
  apply (write_backup_removal_refused [foo_eq_1; bar_any] "requirements.txt"
           two_lines
           (one_file_world two_lines
              {| copy2_fails := false; open_fails := false;
                 write_fails_at := None; remove_fails := true |})).
  - vm_compute. reflexivity.
  - reflexivity.
  - reflexivity.
  - reflexivity.
  - reflexivity.
Defined.

Lemma get_pypi_release_dls_additive_witness :
  get_pypi_release_dls (Some (<["1.1" := files_of_1_1]> {["1.0" := files_of_1_0]}))
  = (get_pypi_release_dls (Some {["1.0" := files_of_1_0]})
     + foldr (fun (vi : gmap string Z) acc => default 0 (vi !! "downloads") + acc)
             0 files_of_1_1)%Z.
Proof.
  apply (get_pypi_release_dls_additive {["1.0" := files_of_1_0]} "1.1"
           files_of_1_1).
  vm_compute. reflexivity.
Defined.

Lemma file_ensure_exists_is_careful_witness :
  (forall q, q <> "requirements.txt" ->
     files (world (file_ensure_exists plain_exn "Yes" "requirements.txt"
                     (console empty_world)).2) !! q
     = files (world (console empty_world)) !! q)
  /\ (is_Some (files (world (console empty_world)) !! "requirements.txt") ->
      Ok true = Ok true
      /\ (file_ensure_exists plain_exn "Yes" "requirements.txt"
            (console empty_world)).2 = console empty_world)
  /\ (String.prefix "y" (lower (strip "Yes")) = false ->
      files (world (file_ensure_exists plain_exn "Yes" "requirements.txt"
                      (console empty_world)).2)
      = files (world (console empty_world)))
  /\ (Ok true = Ok true ->
      is_Some (files (world (file_ensure_exists plain_exn "Yes"
                               "requirements.txt" (console empty_world)).2)
               !! "requirements.txt")).
Proof.
  apply (file_ensure_exists_is_careful plain_exn "Yes" "requirements.txt"
           (console empty_world)
           (file_ensure_exists plain_exn "Yes" "requirements.txt"
              (console empty_world)).2
           (Ok true)).
  vm_compute. reflexivity.
Defined.

Lemma add_lines_invalid_line_changes_nothing_witness :
  (add_lines parse_line plain_exn "n" "requirements.txt"
     ["baz >= 1"; "???"] (console (one_file_world two_lines no_faults))).1
  <> Ok 0
  /\ files (world (add_lines parse_line plain_exn "n" "requirements.txt"
                     ["baz >= 1"; "???"]
                     (console (one_file_world two_lines no_faults))).2)
     = files (world (console (one_file_world two_lines no_faults)))
  /\ stdout (add_lines parse_line plain_exn "n" "requirements.txt"
               ["baz >= 1"; "???"]
               (console (one_file_world two_lines no_faults))).2
     = stdout (console (one_file_world two_lines no_faults)).
Proof.
  apply (add_lines_invalid_line_changes_nothing parse_line plain_exn "n"
           "requirements.txt" two_lines ["baz >= 1"; "???"] "???"
           (console (one_file_world two_lines no_faults))).
  - vm_compute. reflexivity.
  - right. left. reflexivity.
  - intros new. vm_compute. discriminate.
  - vm_compute. reflexivity.
Defined.

Lemma add_lines_one_line_commits_witness :
  exists c',
    add_lines parse_line plain_exn "n" "requirements.txt" ["baz >= 1"]
      (console (one_file_world two_lines no_faults)) = (Ok 0, c')
    /\ files (world c')
       = <["requirements.txt" :=
             serialize [bar_any; foo_eq_1;
                        RequirementPlus_init (mk_registry "baz" [] [(">=", "1")])]
             +:+ nl]>
           (delete ("requirements.txt" +:+ ".bak")
              (files (world (console (one_file_world two_lines no_faults)))))
    /\ stdout c'
       = stdout (console (one_file_world two_lines no_faults))
         ++ ["Added requirement: "
             +:+ RequirementPlus_str
                   (RequirementPlus_init (mk_registry "baz" [] [(">=", "1")]))].
Proof.
  apply (add_lines_one_line_commits parse_line plain_exn "n" "requirements.txt"
           two_lines "baz >= 1" [bar_any; foo_eq_1]
           [bar_any; foo_eq_1;
            RequirementPlus_init (mk_registry "baz" [] [(">=", "1")])]
           (RequirementPlus_init (mk_registry "baz" [] [(">=", "1")])) true
           (console (one_file_world two_lines no_faults))).
  - vm_compute. reflexivity.
  - reflexivity.
  - vm_compute. reflexivity.
  - vm_compute. reflexivity.
  - vm_compute. reflexivity.
Defined.

Lemma add_lines_disk_full_raises_AttributeError_witness :
  exists c',
    add_lines parse_line plain_exn "n" "requirements.txt" ["baz >= 1"]
      (console (one_file_world two_lines first_write_fails))
    = (Raise (AttributeError "format"), c')
    /\ stdout c' = stdout (console (one_file_world two_lines first_write_fails)).
Proof.
  apply (add_lines_disk_full_raises_AttributeError parse_line plain_exn "n"
           "requirements.txt" two_lines "baz >= 1" [bar_any; foo_eq_1]
           [bar_any; foo_eq_1;
            RequirementPlus_init (mk_registry "baz" [] [(">=", "1")])]
           (RequirementPlus_init (mk_registry "baz" [] [(">=", "1")])) true
           (console (one_file_world two_lines first_write_fails)) 0).
  - vm_compute. reflexivity.
  - reflexivity.
  - reflexivity.
  - reflexivity.
  - lia.
  - vm_compute. reflexivity.
  - vm_compute. reflexivity.
  - vm_compute. reflexivity.
Defined.

Lemma sort_requirements_rewrites_or_leaves_witness :
  (forall reqs, from_lines parse_line (readlines two_lines) = Ok reqs ->
     exists w',
       sort_requirements parse_line "requirements.txt"
         (one_file_world two_lines no_faults) = (Ok 0, w')
       /\ files w' = <["requirements.txt" := serialize reqs +:+ nl]>
                       (delete ("requirements.txt" +:+ ".bak")
                          (files (one_file_world two_lines no_faults)))
       /\ stderr w' = stderr (one_file_world two_lines no_faults))
  /\ (forall e, from_lines parse_line (readlines two_lines) = Raise e ->
        sort_requirements parse_line "requirements.txt"
          (one_file_world two_lines no_faults)
        = (Raise e, one_file_world two_lines no_faults)).
Proof.
  apply (sort_requirements_rewrites_or_leaves parse_line "requirements.txt"
           two_lines (one_file_world two_lines no_faults)).
  - vm_compute. reflexivity.
  - reflexivity.
Defined.

Lemma check_requirements_counts_errors_witness :
  2 = length (List.filter
                (fun r => match StatusLine_init parse_version version_compare
                                  parse_line foo_installed r with
                          | Ok sl => error sl
                          | Raise _ => false
                          end) [bar_any; foo_eq_1])
  /\ length (stdout (check_requirements parse_version version_compare
                       parse_line foo_installed plain_spec plain_status offline
                       "requirements.txt" true false false false
                       (console (one_file_world two_lines no_faults))).2)
     = length (stdout (console (one_file_world two_lines no_faults)))
       + length (List.filter
                   (fun r => match StatusLine_init parse_version version_compare
                                     parse_line foo_installed r with
                             | Ok sl => error sl
                             | Raise _ => false
                             end) [bar_any; foo_eq_1])
  /\ world (check_requirements parse_version version_compare
              parse_line foo_installed plain_spec plain_status offline
              "requirements.txt" true false false false
              (console (one_file_world two_lines no_faults))).2
     = world (console (one_file_world two_lines no_faults)).
Proof.
  apply (check_requirements_counts_errors parse_version version_compare
           parse_line foo_installed plain_spec plain_status offline
           "requirements.txt" two_lines true false false
           [bar_any; foo_eq_1] 2
           (console (one_file_world two_lines no_faults))).
  - vm_compute. reflexivity.
  - vm_compute. reflexivity.
  - discriminate.
  - vm_compute. reflexivity.
Defined.

Lemma list_duplicates_status_witness :
  exists n out,
    list_duplicates parse_line bytes_hash digit_str plain_duplicate
      "requirements.txt" (console (one_file_world duplicated_file no_faults))
    = (Ok n, {| world := one_file_world duplicated_file no_faults;
                stdout := [] ++ out |})
    /\ (n = 0 <-> List.NoDup (names [foo_eq_1; foo_eq_2]))
    /\ (n = 0 -> out = ["No duplicate requirements found."])
    /\ (n <> 0 ->
        length out = S (length (duplicates bytes_hash [foo_eq_1; foo_eq_2]))).
Proof.
  apply (list_duplicates_status parse_line bytes_hash digit_str plain_duplicate
           "requirements.txt" duplicated_file [foo_eq_1; foo_eq_2]
           (console (one_file_world duplicated_file no_faults))).
  - vm_compute. reflexivity.
  - vm_compute. reflexivity.
Defined.

Lemma mixed_case_requirement_has_no_location_witness :
  StatusLine_pkg_location
    (foldl (fun pkgs p => <[lower (project_name p) := p]> pkgs) ∅ three_dists)
    (RequirementPlus_init (mk_registry "Foo" [] [("==", "1.2")]))
  = None.
Proof.
  apply (mixed_case_requirement_has_no_location plain_exn three_dists
           (foldl (fun pkgs p => <[lower (project_name p) := p]> pkgs) ∅
                  three_dists)
           (RequirementPlus_init (mk_registry "Foo" [] [("==", "1.2")]))).
  - reflexivity.
  - vm_compute. discriminate.
Defined.

Lemma write_then_from_file_witness :
  exists w' rs,
    write [foo_eq_1; bar_any] "requirements.txt"
      (one_file_world two_lines no_faults) = (Ok tt, w')
    /\ from_file parse_line "requirements.txt" w' = (Ok rs, w')
    /\ rs ≡ₚ map (fun r : RequirementPlus => RequirementPlus_init r)
                 [foo_eq_1; bar_any].
Proof.
  apply (write_then_from_file parse_line [foo_eq_1; bar_any] "requirements.txt"
           two_lines (one_file_world two_lines no_faults)).
  - vm_compute. reflexivity.
  - reflexivity.
  - discriminate.
  - intros r [<-|[<-|[]]]; split_and!; vm_compute; reflexivity.
Defined.

Lemma sort_requirements_of_empty_file_witness :
  exists w',
    sort_requirements parse_line "requirements.txt"
      (one_file_world "" no_faults) = (Ok 0, w')
    /\ files w' !! "requirements.txt" = Some nl
    /\ from_file parse_line "requirements.txt" w'
       = (match RequirementPlus_parse parse_line nl with
          | Ok r => Ok [r]
          | Raise e => Raise e
          end, w').
Proof.
  apply (sort_requirements_of_empty_file parse_line "requirements.txt"
           (one_file_world "" no_faults)).
  - vm_compute. reflexivity.
  - reflexivity.
Defined.

Lemma StatusLine_marker_agrees_with_error_witness :
  (error {| status_req := bar_any; error := true; errstatus := "!" |} = true
   <-> errstatus {| status_req := bar_any; error := true; errstatus := "!" |}
       = "!")
  /\ (error {| status_req := bar_any; error := true; errstatus := "!" |} = false ->
      is_Some (foo_installed !! lower (name bar_any))
      \/ is_Some (_installed_ver bar_any))
  /\ req (status_req {| status_req := bar_any; error := true; errstatus := "!" |})
     = req bar_any.
Proof.
  apply (StatusLine_marker_agrees_with_error parse_version version_compare
           parse_line foo_installed bar_any
           {| status_req := bar_any; error := true; errstatus := "!" |}).
  vm_compute. reflexivity.
Defined.
